(** * Otman: gesture pipeline, mode machine, animator and pointer selector

    A shallow embedding of the TypeScript sources
      - [src/types.ts]
      - [src/services/handTrackingService.ts]   (gesture classifier)
      - [src/components/HandController.tsx]     (signal stabilizer)
      - [src/App.tsx]                           (mode machine, photo list)
      - [src/components/Experience.tsx]         (animator, pointer selector)

    Numbers.  A JavaScript [number] is modelled as a real number: the
    arithmetic of the sources ([+], [-], [*], [<], [Math.sqrt],
    [Math.hypot], [Math.sin], [Math.cos]) is read as exact arithmetic on
    [R], so rounding, overflow and NaN are outside the model.  The one
    non-finite value the sources use, [Infinity] as the initial minimum
    distance of the selector, is modelled as [None] in [option R].

    Exceptions.  Reading a property of [undefined] raises a [TypeError];
    functions that can do so return a [completion].

    Chance and the outside world.  [Math.random()] is an input: a function
    that draws takes the results of its calls, each in the half-open
    interval from 0 to 1 ([Draw]).  What a method asks of the browser
    (animation frames, media tracks, MediaPipe) is returned as a list of
    effects, and an [async] method is split at its [await].  The
    constants of [src/constants.ts] are in [CONFIG]. *)

From Stdlib Require Import Reals Lra Lia ZArith List Bool String Permutation.
Import ListNotations.

(* ================================================================= *)
(** ** src/types.ts *)

Inductive AppState : Type :=
| TREE      (* Fist: coalesce into a tree   -- the spec's ASSEMBLED *)
| SCATTER   (* Open hand: float around      -- the spec's SCATTERED *)
| ZOOM.     (* Two fingers: inspect a photo -- the spec's FOCUSED   *)

Inductive HandGesture : Type :=
| NONE
| FIST
| OPEN_PALM
| TWO_FINGERS.

Definition AppState_eqb (a b : AppState) : bool :=
  match a, b with
  | TREE, TREE | SCATTER, SCATTER | ZOOM, ZOOM => true
  | _, _ => false
  end.

Definition HandGesture_eqb (a b : HandGesture) : bool :=
  match a, b with
  | NONE, NONE | FIST, FIST | OPEN_PALM, OPEN_PALM
  | TWO_FINGERS, TWO_FINGERS => true
  | _, _ => false
  end.

(** [{ x: number; y: number }] *)
Record Vec2 : Type := mkVec2 { x : R; y : R }.

(** [[number, number, number]] and [THREE.Vector3] *)
Record Vec3 : Type := mkVec3 { vx : R; vy : R; vz : R }.

Inductive ParticleType : Type := SPHERE | CUBE | CYLINDER | PHOTO.

Record ParticleData : Type := mkParticle {
  id : R;
  initialPos : Vec3;
  treePos : Vec3;
  scatterPos : Vec3;
  type : ParticleType;
  color : string;
  scale : R;
  photoUrl : option string;
  rotationSpeed : Vec3
}.

Record HandTrackingResult : Type := mkResult {
  gesture : HandGesture;
  position : Vec2;       (* normalized 0-1 *)
  isPresent : bool
}.

(* ================================================================= *)
(** ** JavaScript helpers shared by the modules *)

(** The outcome of a call that may raise a [TypeError]. *)
Inductive completion (A : Type) : Type :=
| Normal (a : A)
| Throw.
Arguments Normal {A} a.
Arguments Throw {A}.

Definition bind {A B : Type} (c : completion A) (k : A -> completion B)
  : completion B :=
  match c with
  | Normal a => k a
  | Throw => Throw
  end.

Notation "v <- c ;; k" := (bind c (fun v => k))
  (at level 61, c at next level, right associativity).

(** [a < b] on numbers, as a boolean. *)
Definition num_ltb (a b : R) : bool := if Rlt_dec a b then true else false.

(** [Math.floor] *)
Definition floor (r : R) : Z := Zfloor r.

(** One result of [Math.random()]: a number in the half-open interval
    from 0 to 1. *)
Record Draw : Type := mkDraw {
  value : R;
  value_range : (0 <= value < 1)%R
}.

(** The results of the successive calls of [Math.random()] that one run
    of a function makes, by call number. *)
Definition Random : Type := nat -> Draw.

(** [arr[i] = v] within the array. *)
Fixpoint update {A : Type} (arr : list A) (i : nat) (v : A) : list A :=
  match arr, i with
  | [], _ => []
  | _ :: rest, O => v :: rest
  | a :: rest, S i' => a :: update rest i' v
  end.

(** [arr.map((a, i) => f(a, i))], counting from [i]. *)
Fixpoint map_from {A B : Type} (f : A -> nat -> B) (arr : list A) (i : nat)
  : list B :=
  match arr with
  | [] => []
  | a :: rest => f a i :: map_from f rest (S i)
  end.

(* ================================================================= *)
(** ** src/constants.ts *)

Module CONFIG.
Local Open Scope R_scope.

Definition PARTICLE_COUNT : nat := 400.
Definition TREE_HEIGHT : R := 15.
Definition TREE_RADIUS_BASE : R := 6.
Definition SCATTER_RADIUS : R := 20.
Definition CAM_ZOOM_SPEED : R := 0.05.

End CONFIG.

(* ================================================================= *)
(** ** src/services/handTrackingService.ts : the gesture classifier *)

Module HandTracking.
Local Open Scope R_scope.

(** [Math.hypot(a, b)] *)
Definition hypot (a b : R) : R := sqrt (a * a + b * b).

(** [const dist = (p1, p2) => Math.hypot(p1.x - p2.x, p1.y - p2.y)];
    an argument that is [undefined] (an index past the end of the
    landmark array) makes the property read throw. *)
Definition dist (p1 p2 : option Vec2) : completion R :=
  match p1, p2 with
  | Some a, Some b => Normal (hypot (x a - x b) (y a - y b))
  | _, _ => Throw
  end.

(** [isFingerFolded], closed over [landmarks] and [wrist]. *)
Definition isFingerFolded (landmarks : list Vec2) (wrist : option Vec2)
  (tipIdx pipIdx : nat) : completion bool :=
  dTip <- dist (nth_error landmarks tipIdx) wrist ;;
  dPip <- dist (nth_error landmarks pipIdx) wrist ;;
  Normal (num_ltb dTip (dPip * 1.1)).

(** [HandTrackingService.detectGesture]; [None] is a null or undefined
    argument. *)
Definition detectGesture (landmarks : option (list Vec2))
  : completion HandGesture :=
  match landmarks with
  | None => Normal NONE
  | Some lm =>
    if (List.length lm =? 0)%nat then Normal NONE else
    let wrist := nth_error lm 0 in
    isIndexFolded  <- isFingerFolded lm wrist 8 6 ;;
    isMiddleFolded <- isFingerFolded lm wrist 12 10 ;;
    isRingFolded   <- isFingerFolded lm wrist 16 14 ;;
    isPinkyFolded  <- isFingerFolded lm wrist 20 18 ;;
    if negb isIndexFolded && negb isMiddleFolded
       && isRingFolded && isPinkyFolded
    then Normal TWO_FINGERS
    else
      let foldedCount := 0%nat in
      let foldedCount := if isIndexFolded then S foldedCount else foldedCount in
      let foldedCount := if isMiddleFolded then S foldedCount else foldedCount in
      let foldedCount := if isRingFolded then S foldedCount else foldedCount in
      let foldedCount := if isPinkyFolded then S foldedCount else foldedCount in
      if (3 <=? foldedCount)%nat then Normal FIST
      else if (foldedCount <=? 1)%nat then Normal OPEN_PALM
      else Normal OPEN_PALM
  end.

(** *** The classifier as the specification words it *)

(** The landmark at index [i] of a full landmark set. *)
Definition at_index (lm : list Vec2) (i : nat) : Vec2 := nth i lm (mkVec2 0 0).

Definition distance (p q : Vec2) : R :=
  sqrt ((x p - x q) * (x p - x q) + (y p - y q) * (y p - y q)).

(** folded := distance(tip, wrist) < 1.1 * distance(pip, wrist) *)
Definition spec_folded (lm : list Vec2) (tip pip : nat) : Prop :=
  distance (at_index lm tip) (at_index lm 0)
  < 1.1 * distance (at_index lm pip) (at_index lm 0).

Definition spec_count (i m r p : bool) : nat :=
  (Nat.b2n i + Nat.b2n m + Nat.b2n r + Nat.b2n p)%nat.

(** First match wins: the two-finger pattern, then at least three
    folded, then everything else. *)
Definition spec_classify (i m r p : bool) : HandGesture :=
  if negb i && negb m && r && p then TWO_FINGERS
  else if (3 <=? spec_count i m r p)%nat then FIST
  else OPEN_PALM.

(** Indices of the thumb landmarks. *)
Definition thumb_index (k : nat) : Prop :=
  k = 1%nat \/ k = 2%nat \/ k = 3%nat \/ k = 4%nat.


(** *** The service: the capture loop and its cancellation *)

(** The MediaPipe instance, as far as [stop] looks at it:
    [typeof this.hands.close === 'function']. *)
Record HandsInstance : Type := mkHands { hasClose : bool }.

(** The fields of [HandTrackingService]; [hands] is [None] when the
    constructor found no MediaPipe or failed to set it up, [stream] says
    whether a media stream is held. *)
Record Service : Type := mkService {
  hands : option HandsInstance;
  animationFrameId : option Z;
  stream : bool;
  isRunning : bool;
  lastProcessTime : R
}.

(** What a method does to the outside world, in order. *)
Inductive Effect : Type :=
| CancelAnimationFrame (id : Z)
| StopTracks
| CloseHands
| RequestAnimationFrame
| Send.

(** [stop()].  [if (this.animationFrameId)] takes a number other than 0;
    a throwing [close] is caught and ignored. *)
Definition stop (svc : Service) : Service * list Effect :=
  let cancel :=
    match animationFrameId svc with
    | Some id => if (id =? 0)%Z then [] else [CancelAnimationFrame id]
    | None => []
    end in
  let tracks := if stream svc then [StopTracks] else [] in
  let close :=
    match hands svc with
    | Some h => if hasClose h then [CloseHands] else []
    | None => []
    end in
  (mkService (hands svc) (animationFrameId svc) false false
             (lastProcessTime svc),
   cancel ++ tracks ++ close).

(** The end of [processFrame]: [if (this.isRunning)] ask for the next
    frame; [newId] is what [requestAnimationFrame] returns. *)
Definition processFrame_tail (svc : Service) (newId : Z)
  : Service * list Effect :=
  if isRunning svc then
    (mkService (hands svc) (Some newId) (stream svc) (isRunning svc)
               (lastProcessTime svc),
     [RequestAnimationFrame])
  else (svc, []).

(** [processFrame] up to its [await]: [now] is [performance.now()],
    [readyState] the video element's.  The boolean tells whether the
    function is left waiting for [hands.send]. *)
Definition processFrame_begin (svc : Service) (now : R) (readyState : Z)
  (newId : Z) : Service * list Effect * bool :=
  if negb (isRunning svc)
     || match hands svc with Some _ => false | None => true end
  then (svc, [], false)
  else if num_ltb (now - lastProcessTime svc) 33 then
    (mkService (hands svc) (Some newId) (stream svc) (isRunning svc)
               (lastProcessTime svc),
     [RequestAnimationFrame], false)
  else if (2 <=? readyState)%Z then (svc, [Send], true)
  else (processFrame_tail svc newId, false).

(** [processFrame] from its [await] on, run on the service as it is by
    then: [sent] is whether [hands.send] resolved (a rejection is caught),
    [now] is the second [performance.now()]. *)
Definition processFrame_resume (svc : Service) (sent : bool) (now : R)
  (newId : Z) : Service * list Effect :=
  let svc :=
    if sent then
      mkService (hands svc) (animationFrameId svc) (stream svc)
                (isRunning svc) now
    else svc in
  processFrame_tail svc newId.

End HandTracking.

(* ================================================================= *)
(** ** src/components/HandController.tsx : the signal stabilizer *)

Module HandController.
Local Open Scope R_scope.

(** The argument of the [onResults] callback: [multiHandLandmarks] is
    absent, or an array of landmark arrays (one per detected hand). *)
Record Results : Type := mkResults {
  multiHandLandmarks : option (list (list Vec2))
}.

(** The locals [gesture], [rawX], [rawY], [isPresent] of the callback. *)
Record RawFrame : Type := mkRaw {
  raw_gesture : HandGesture;
  rawX : R;
  rawY : R;
  raw_isPresent : bool
}.

(** The three refs the callback reads and writes. *)
Record Refs : Type := mkRefs {
  prevPositionRef : Vec2;
  gestureHistoryRef : list HandGesture;
  lastEmittedGestureRef : HandGesture
}.

Definition init : Refs := mkRefs (mkVec2 0.5 0.5) [] NONE.

(** Lines 31-45: the raw frame read off the landmark source.
    [landmarks[9] || landmarks[0]] is the palm centre, else the wrist. *)
Definition readFrame (results : Results) : completion RawFrame :=
  match multiHandLandmarks results with
  | Some (landmarks :: _) =>
    gesture <- HandTracking.detectGesture (Some landmarks) ;;
    let palm :=
      match nth_error landmarks 9 with
      | Some p => Some p
      | None => nth_error landmarks 0
      end in
    match palm with
    | Some p => Normal (mkRaw gesture (1 - x p) (y p) true)
    | None => Throw
    end
  | _ => Normal (mkRaw NONE 0.5 0.5 false)
  end.

Definition smoothingFactor : R := 0.1.

(** The [counts] object.  Its keys are the enum's strings, none of them
    an array index, so [Object.keys] lists them in insertion order. *)
Definition Counts : Type := list (HandGesture * nat).

(** [counts[g]]; [None] is [undefined]. *)
Fixpoint lookup (counts : Counts) (g : HandGesture) : option nat :=
  match counts with
  | [] => None
  | (k, n) :: rest => if HandGesture_eqb k g then Some n else lookup rest g
  end.

(** [acc[g] = (acc[g] || 0) + 1; return acc]: an existing key keeps its
    place, a new key goes last. *)
Fixpoint bump (acc : Counts) (g : HandGesture) : Counts :=
  match acc with
  | [] => [(g, 1%nat)]
  | (k, n) :: rest =>
    if HandGesture_eqb k g then (k, S n) :: rest else (k, n) :: bump rest g
  end.

(** [history.reduce((acc, g) => ..., {})] *)
Definition countOccurrences (history : list HandGesture) : Counts :=
  fold_left bump history [].

(** [Object.keys(counts)] *)
Definition keys (counts : Counts) : list HandGesture := map fst counts.

(** [a > b] and [a >= b] on counts; a comparison with [undefined] is false. *)
Definition js_gt (a b : option nat) : bool :=
  match a, b with
  | Some m, Some n => (n <? m)%nat
  | _, _ => false
  end.

Definition js_ge (a b : option nat) : bool :=
  match a, b with
  | Some m, Some n => (n <=? m)%nat
  | _, _ => false
  end.

(** [arr.reduce(f)] without an initial value: the first element seeds the
    accumulator, an empty array throws. *)
Definition reduce1 {A : Type} (f : A -> A -> A) (arr : list A) : completion A :=
  match arr with
  | [] => Throw
  | a :: rest => Normal (fold_left f rest a)
  end.

(** [(a, b) => counts[a] > counts[b] ? a : b] *)
Definition pick (counts : Counts) (a b : HandGesture) : HandGesture :=
  if js_gt (lookup counts a) (lookup counts b) then a else b.

(** Lines 66-73: the dominant gesture of a history. *)
Definition dominantGesture (history : list HandGesture)
  : completion HandGesture :=
  let counts := countOccurrences history in
  reduce1 (pick counts) (keys counts).

(** [push(gesture)] then, if the length exceeds 5, [shift()]. *)
Definition pushHistory (history : list HandGesture) (g : HandGesture)
  : list HandGesture :=
  let history := history ++ [g] in
  if (5 <? List.length history)%nat then tl history else history.

(** Lines 47-90: smoothing, debouncing and the emitted result.  The refs
    are returned as the callback leaves them, also were it to throw. *)
Definition stabilize (st : Refs) (f : RawFrame)
  : Refs * completion HandTrackingResult :=
  let prev := prevPositionRef st in
  let pos :=
    if raw_isPresent f then
      let smoothX := x prev + (rawX f - x prev) * smoothingFactor in
      let smoothY := y prev + (rawY f - y prev) * smoothingFactor in
      mkVec2 smoothX smoothY
    else prev in
  if raw_isPresent f then
    let history := pushHistory (gestureHistoryRef st) (raw_gesture f) in
    match dominantGesture history with
    | Throw => (mkRefs pos history (lastEmittedGestureRef st), Throw)
    | Normal dominant =>
      let counts := countOccurrences history in
      let last :=
        if js_ge (lookup counts dominant) (Some 3%nat) then dominant
        else lastEmittedGestureRef st in
      (mkRefs pos history last, Normal (mkResult last pos (raw_isPresent f)))
    end
  else
    (mkRefs pos [] NONE, Normal (mkResult NONE pos (raw_isPresent f))).

(** The whole callback: nothing happens after unmount; a throw while
    reading the frame leaves the refs untouched.  [Some r] is the call
    [onUpdate(r)]. *)
Definition onResults (isMounted : bool) (st : Refs) (results : Results)
  : Refs * completion (option HandTrackingResult) :=
  if negb isMounted then (st, Normal None)
  else
    match readFrame results with
    | Throw => (st, Throw)
    | Normal f =>
      let '(st', out) := stabilize st f in
      (st', r <- out ;; Normal (Some r))
    end.

(** The refs after a run of frames. *)
Definition feed (st : Refs) (frames : list RawFrame) : Refs :=
  fold_left (fun s f => fst (stabilize s f)) frames st.

(** The gestures emitted along a run of frames, [None] for a throw. *)
Fixpoint emitted (st : Refs) (frames : list RawFrame)
  : list (option HandGesture) :=
  match frames with
  | [] => []
  | f :: rest =>
    let '(st', out) := stabilize st f in
    match out with
    | Normal r => Some (gesture r)
    | Throw => None
    end :: emitted st' rest
  end.

(** A present frame with raw gesture [g] at raw position [(rx, ry)]. *)
Definition present (rx ry : R) (g : HandGesture) : RawFrame :=
  mkRaw g rx ry true.

(** *** Words of the specification *)

(** The last [n] elements of a list. *)
Definition lastn {A : Type} (n : nat) (l : list A) : list A :=
  rev (firstn n (rev l)).

(** How often label [g] occurs in a history. *)
Definition occurrences (g : HandGesture) (history : list HandGesture) : nat :=
  List.length (filter (HandGesture_eqb g) history).

(** No label reaches the 3-of-5 majority in [history]. *)
Definition no_majority (history : list HandGesture) : Prop :=
  forall g, (occurrences g history < 3)%nat.

(** [d] is, among the keys of the counts of [history] that carry the
    greatest count, the one the iteration over the keys meets first. *)
Definition first_of_most_frequent (history : list HandGesture)
  (d : HandGesture) : Prop :=
  exists pre post,
    keys (countOccurrences history) = pre ++ d :: post /\
    (forall k, In k pre -> (occurrences k history < occurrences d history)%nat) /\
    (forall k, In k post -> (occurrences k history <= occurrences d history)%nat).

(** The same, for the one met last. *)
Definition last_of_most_frequent (history : list HandGesture)
  (d : HandGesture) : Prop :=
  exists pre post,
    keys (countOccurrences history) = pre ++ d :: post /\
    (forall k, In k pre -> (occurrences k history <= occurrences d history)%nat) /\
    (forall k, In k post -> (occurrences k history < occurrences d history)%nat).

(** Raw gestures [gs] pushed one after the other onto history [h] never
    bring a label to the 3-of-5 majority. *)
Definition never_reaches_majority (h gs : list HandGesture) : Prop :=
  forall k, (1 <= k <= List.length gs)%nat ->
            no_majority (lastn 5 (h ++ firstn k gs)).

(** Every frame of the run has a hand in it. *)
Definition all_present (frames : list RawFrame) : Prop :=
  Forall (fun f => raw_isPresent f = true) frames.

(** A point of the unit square, the range of a normalized position. *)
Definition unit_square (p : Vec2) : Prop :=
  (0 <= x p <= 1 /\ 0 <= y p <= 1)%R.

(** A frame whose raw position, if a hand is present, is in the unit
    square. *)
Definition raw_in_square (f : RawFrame) : Prop :=
  raw_isPresent f = true -> (0 <= rawX f <= 1 /\ 0 <= rawY f <= 1)%R.

(** The emitted gesture agrees with the history: a label that holds the
    majority of the history is the one emitted. *)
Definition coherent (st : Refs) : Prop :=
  (List.length (gestureHistoryRef st) <= 5)%nat /\
  forall m, (3 <= occurrences m (gestureHistoryRef st))%nat ->
            lastEmittedGestureRef st = m.

End HandController.

(* ================================================================= *)
(** ** src/components/Experience.tsx : the animator and the selector *)

Module Experience.
Local Open Scope R_scope.

(** three.js, [MathUtils.lerp(x, y, t)]: [(1 - t) * x + t * y]. *)
Definition lerp (a b t : R) : R := (1 - t) * a + t * b.

(** three.js, [Vector3.lerp(v, alpha)]: each component does
    [this.c += (v.c - this.c) * alpha]. *)
Definition Vector3_lerp (this v : Vec3) (alpha : R) : Vec3 :=
  mkVec3 (vx this + (vx v - vx this) * alpha)
         (vy this + (vy v - vy this) * alpha)
         (vz this + (vz v - vz this) * alpha).

(** three.js, [Vector3.multiplyScalar(s)]. *)
Definition multiplyScalar (v : Vec3) (s : R) : Vec3 :=
  mkVec3 (vx v * s) (vy v * s) (vz v * s).

(** *** InstancedOrnaments *)

(** The four floats [buffer.current[i*4 .. i*4+3]] of instance [i]. *)
Record Slot : Type := mkSlot { bx : R; by_ : R; bz : R; bscale : R }.

(** What [dummy] holds when its matrix is stored for the instance. *)
Record Instance : Type := mkInstance {
  inst_position : Vec3;
  inst_rotation : Vec3;
  inst_scale : R
}.

(** [lerpSpeed = isTree ? 3 * delta : 2 * delta] *)
Definition lerpSpeed (appState : AppState) (delta : R) : R :=
  if AppState_eqb appState TREE then 3 * delta else 2 * delta.

(** [tx, ty, tz] of the loop body. *)
Definition ornamentTarget (appState : AppState) (time : R) (d : ParticleData)
  : Vec3 :=
  if AppState_eqb appState SCATTER || AppState_eqb appState ZOOM then
    mkVec3 (vx (scatterPos d) + cos (time * 0.5 + id d) * 0.2)
           (vy (scatterPos d) + sin (time + id d) * 0.5)
           (vz (scatterPos d))
  else
    mkVec3 (vx (treePos d)) (vy (treePos d)) (vz (treePos d)).

(** [targetScale = d.scale * (appState === ZOOM ? 0.5 : 1.0)] *)
Definition ornamentTargetScale (appState : AppState) (d : ParticleData) : R :=
  let targetScaleVal := if AppState_eqb appState ZOOM then 0.5 else 1.0 in
  scale d * targetScaleVal.

(** One pass of the loop body for instance [d] with buffer slot [s]. *)
Definition ornamentStep (appState : AppState) (time delta : R)
  (d : ParticleData) (s : Slot) : Slot * Instance :=
  let t := ornamentTarget appState time d in
  let nx := lerp (bx s) (vx t) (lerpSpeed appState delta) in
  let ny := lerp (by_ s) (vy t) (lerpSpeed appState delta) in
  let nz := lerp (bz s) (vz t) (lerpSpeed appState delta) in
  let targetScale := ornamentTargetScale appState d in
  let newScale := lerp (bscale s) targetScale (delta * 3) in
  (mkSlot nx ny nz newScale,
   mkInstance (mkVec3 nx ny nz)
              (mkVec3 (vx (rotationSpeed d) * time)
                      (vy (rotationSpeed d) * time) 0)
              newScale).

(** The [useFrame] callback over all instances. *)
Fixpoint ornamentsFrame (appState : AppState) (time delta : R)
  (data : list ParticleData) (buffer : list Slot)
  : list (Slot * Instance) :=
  match data, buffer with
  | d :: data', s :: buffer' =>
    ornamentStep appState time delta d s
      :: ornamentsFrame appState time delta data' buffer'
  | _, _ => []
  end.

(** *** PhotoDisplay *)

(** The group of one photo: position, Euler rotation, uniform scale, the
    border's emissive intensity, and the two anchor refs. *)
Record Mesh : Type := mkMesh {
  mesh_position : Vec3;
  mesh_rotation : Vec3;
  mesh_scale : R;
  emissiveIntensity : R;
  scatterPosRef : Vec3;
  treePosRef : Vec3
}.

Record Target : Type := mkTarget {
  targetPos : Vec3;
  targetScale : R;
  targetRot : Vec3
}.

Section PhotoDisplay.

(** [Math.atan2] *)
Variable atan2 : R -> R -> R.

(** three.js, [Object3D.lookAt]: the rotation that turns an object at the
    first point towards the second. *)
Variable lookAt : Vec3 -> Vec3 -> Vec3.

(** [targetPos], [targetScale], [targetRot] as the mode branches leave
    them. *)
Definition photoTarget (data : ParticleData) (appState : AppState)
  (isSelected : bool) (time : R) (m : Mesh) : Target :=
  let targetPos := treePosRef m in
  let targetScale := 1.8 in
  let targetRot := mkVec3 0 (- id data * 0.5) 0 in
  if AppState_eqb appState SCATTER then
    let targetPos := scatterPosRef m in
    let targetScale := if isSelected then 2.5 else 1.5 in
    let targetPos :=
      mkVec3 (vx targetPos) (vy targetPos + sin (time + id data) * 0.3)
             (vz targetPos) in
    let targetRot :=
      if isSelected then mkVec3 0 0 0 else mkVec3 0 (time * 0.1) 0 in
    mkTarget targetPos targetScale targetRot
  else if AppState_eqb appState ZOOM then
    if isSelected then mkTarget (mkVec3 0 0 8) 6 (mkVec3 0 0 0)
    else mkTarget (multiplyScalar (scatterPosRef m) 1.5) 0.5 targetRot
  else if AppState_eqb appState TREE then
    let angle := atan2 (vx targetPos) (vz targetPos) in
    mkTarget targetPos targetScale (mkVec3 0 angle 0)
  else mkTarget targetPos targetScale targetRot.

(** The [useFrame] callback of one photo; [cameraPosition] is
    [state.camera.position]. *)
Definition photoFrame (data : ParticleData) (appState : AppState)
  (isSelected : bool) (time delta : R) (cameraPosition : Vec3) (m : Mesh)
  : Mesh :=
  let targetEmissive := if isSelected then 1 else 0 in
  let emissive := lerp (emissiveIntensity m) targetEmissive (delta * 10) in
  let t := photoTarget data appState isSelected time m in
  let position := Vector3_lerp (mesh_position m) (targetPos t) (delta * 3) in
  let rotation :=
    if AppState_eqb appState ZOOM && isSelected then
      lookAt position cameraPosition
    else
      mkVec3 (lerp (vx (mesh_rotation m)) (vx (targetRot t)) (delta * 3))
             (lerp (vy (mesh_rotation m)) (vy (targetRot t)) (delta * 3))
             (lerp (vz (mesh_rotation m)) (vz (targetRot t)) (delta * 3)) in
  let currentScale := mesh_scale m in
  mkMesh position rotation (lerp currentScale (targetScale t) (delta * 4))
         emissive (scatterPosRef m) (treePosRef m).

End PhotoDisplay.

(** *** The pointer selector *)

Section Selector.

Variable Camera : Type.

(** three.js, [Vector3.project(camera)]: world space to normalized device
    coordinates. *)
Variable project : Camera -> Vec3 -> Vec3.

(** [dist < minDist], where [minDist] starts at [Infinity]. *)
Definition below (dist : R) (minDist : option R) : bool :=
  match minDist with
  | None => true
  | Some m => num_ltb dist m
  end.

(** The projected distance of particle [p] to the pointer. *)
Definition pointerDist (appState : AppState) (camera : Camera)
  (ndcX ndcY : R) (p : ParticleData) : R :=
  let v := if AppState_eqb appState TREE then treePos p else scatterPos p in
  let v := project camera v in
  let dx := vx v - ndcX in
  let dy := vy v - ndcY in
  sqrt (dx * dx + dy * dy).

(** [photoParticles.forEach((p, i) => ...)], from index [i] on, threading
    [(minDist, closestIndex)]. *)
Fixpoint forEach (appState : AppState) (camera : Camera) (ndcX ndcY : R)
  (particles : list ParticleData) (i : nat) (acc : option R * Z)
  : option R * Z :=
  match particles with
  | [] => acc
  | p :: rest =>
    let dist := pointerDist appState camera ndcX ndcY p in
    let acc :=
      if below dist (fst acc) then (Some dist, Z.of_nat i) else acc in
    forEach appState camera ndcX ndcY rest (S i) acc
  end.

(** The two early returns of the selection [useFrame]. *)
Definition selectionRuns (appState : AppState) (handData : HandTrackingResult)
  (photoParticles : list ParticleData) : bool :=
  if AppState_eqb appState ZOOM then false
  else if negb (isPresent handData) || (List.length photoParticles =? 0)%nat
  then false
  else true.

Definition ndcX (handData : HandTrackingResult) : R :=
  x (position handData) * 2 - 1.

Definition ndcY (handData : HandTrackingResult) : R :=
  - (y (position handData) * 2) + 1.

(** The selection [useFrame]; [Some i] is the call [onPhotoSelect(i)]. *)
Definition selectionFrame (appState : AppState) (camera : Camera)
  (handData : HandTrackingResult) (photoParticles : list ParticleData)
  : option Z :=
  if selectionRuns appState handData photoParticles then
    let '(minDist, closestIndex) :=
      forEach appState camera (ndcX handData) (ndcY handData)
              photoParticles 0 (None, (-1)%Z) in
    if match minDist with Some m => num_ltb m 0.4 | None => false end
       && negb (closestIndex =? -1)%Z
    then Some closestIndex
    else None
  else None.

(** *** The selector as the specification words it *)

(** The anchor that counts in a mode. *)
Definition anchor (appState : AppState) (p : ParticleData) : Vec3 :=
  match appState with
  | TREE => treePos p
  | _ => scatterPos p
  end.

(** Euclidean distance, in projected space, of the anchor of [p] to the
    pointer [(px, py)] mapped to [(2 * px - 1, 1 - 2 * py)]. *)
Definition spec_distance (appState : AppState) (camera : Camera)
  (px py : R) (p : ParticleData) : R :=
  let v := project camera (anchor appState p) in
  sqrt ((vx v - (2 * px - 1)) * (vx v - (2 * px - 1))
        + (vy v - (1 - 2 * py)) * (vy v - (1 - 2 * py))).

End Selector.

(** *** The animator as the specification words it *)

(** [current += (target - current) * rate * deltaTime] *)
Definition approach (current target rate deltaTime : R) : R :=
  current + (target - current) * rate * deltaTime.

Definition approach3 (current target : Vec3) (rate deltaTime : R) : Vec3 :=
  mkVec3 (approach (vx current) (vx target) rate deltaTime)
         (approach (vy current) (vy target) rate deltaTime)
         (approach (vz current) (vz target) rate deltaTime).

Definition sub3 (a b : Vec3) : Vec3 :=
  mkVec3 (vx a - vx b) (vy a - vy b) (vz a - vz b).

Definition norm3 (v : Vec3) : R :=
  sqrt (vx v * vx v + vy v * vy v + vz v * vz v).

Definition slotPosition (s : Slot) : Vec3 := mkVec3 (bx s) (by_ s) (bz s).

(** The position rate of the ornaments per mode. *)
Definition ornamentRate (appState : AppState) : R :=
  match appState with
  | TREE => 3
  | _ => 2
  end.

(** *** shuffle *)

(** [[arr[i], arr[j]] = [arr[j], arr[i]]].  The loop of [shuffle] only
    passes indices within the array; outside it the model leaves the
    array alone. *)
Definition swap {A : Type} (arr : list A) (i j : nat) : list A :=
  match nth_error arr i, nth_error arr j with
  | Some a, Some b => update (update arr i b) j a
  | _, _ => arr
  end.

(** [Math.floor(Math.random() * (i + 1))] *)
Definition randomIndex (d : Draw) (i : nat) : nat :=
  Z.to_nat (floor (value d * INR (i + 1))).

(** The loop [for (let i = ...; i > 0; i--)] from [i] down, [call]
    counting the calls of [Math.random()]. *)
Fixpoint shuffle_loop {A : Type} (rand : Random) (call : nat) (i : nat)
  (arr : list A) : list A :=
  match i with
  | O => arr
  | S i' =>
    let j := randomIndex (rand call) i in
    shuffle_loop rand (S call) i' (swap arr i j)
  end.

Definition shuffle {A : Type} (rand : Random) (array : list A) : list A :=
  let arr := array in
  shuffle_loop rand 0 (List.length arr - 1) arr.

(** *** The ornaments of the scene *)

Definition phi : R := PI * (3 - sqrt 5).

Definition types : list ParticleType := [SPHERE; CUBE; CYLINDER].

(** The body of [Array.from({ length: count }).map((_, i) => ...)]: nine
    calls of [Math.random()] per particle, in the order of the source.
    The index into [types] is 0, 1 or 2. *)
Definition particleAt (rand : Random) (count : nat) (i : nat)
  : ParticleData :=
  let random k := value (rand (9 * i + k)%nat) in
  let t := INR i / INR count in
  let yTree := t * CONFIG.TREE_HEIGHT - CONFIG.TREE_HEIGHT / 2 in
  let maxRadius := (1 - t) * CONFIG.TREE_RADIUS_BASE in
  let angle := INR i * phi in
  let rJitter := maxRadius * (0.3 + 0.7 * sqrt (random 0%nat)) in
  let xTree := rJitter * cos angle in
  let zTree := rJitter * sin angle in
  let rScatter := CONFIG.SCATTER_RADIUS in
  let xScatter := (random 1%nat - 0.5) * rScatter * 2 in
  let yScatter := (random 2%nat - 0.5) * rScatter * 1.5 in
  let zScatter := (random 3%nat - 0.5) * rScatter * 2 in
  let type :=
    nth (Z.to_nat (floor (random 4%nat * INR (List.length types))))
        types CYLINDER in
  mkParticle (INR i)
             (mkVec3 xScatter yScatter zScatter)
             (mkVec3 xTree yTree zTree)
             (mkVec3 xScatter yScatter zScatter)
             type EmptyString
             (random 5%nat * 0.3 + 0.1)
             None
             (mkVec3 (random 6%nat) (random 7%nat) (random 8%nat)).

Definition particles (rand : Random) : list ParticleData :=
  map (particleAt rand CONFIG.PARTICLE_COUNT) (seq 0 CONFIG.PARTICLE_COUNT).

Definition ParticleType_eqb (a b : ParticleType) : bool :=
  match a, b with
  | SPHERE, SPHERE | CUBE, CUBE | CYLINDER, CYLINDER | PHOTO, PHOTO => true
  | _, _ => false
  end.

(** The body of [particles.forEach(p => ...)], pushing onto [s], [c] or
    [cyl]. *)
Definition pushByType
  (acc : list ParticleData * list ParticleData * list ParticleData)
  (p : ParticleData)
  : list ParticleData * list ParticleData * list ParticleData :=
  let '(s, c, cyl) := acc in
  if ParticleType_eqb (type p) SPHERE then (s ++ [p], c, cyl)
  else if ParticleType_eqb (type p) CUBE then (s, c ++ [p], cyl)
  else if ParticleType_eqb (type p) CYLINDER then (s, c, cyl ++ [p])
  else (s, c, cyl).

(** [{ spheres, cubes, cylinders }] *)
Definition splitByType (particles : list ParticleData)
  : list ParticleData * list ParticleData * list ParticleData :=
  fold_left pushByType particles ([], [], []).



(** *** The photo particles *)

(** The tree anchor of photo [i] of [n], as both effects compute it. *)
Definition photoTreePos (n i : nat) : Vec3 :=
  let t := INR i / INR n in
  let yTree := (1 - t) * CONFIG.TREE_HEIGHT - CONFIG.TREE_HEIGHT / 2 in
  let radius := (1 - t) * CONFIG.TREE_RADIUS_BASE + 2.0 in
  let angle := INR i * 2.5 in
  mkVec3 (radius * cos angle) yTree (radius * sin angle).

(** [[(Math.random()-0.5)*15, (Math.random()-0.5)*15,
    (Math.random()-0.5)*10]], from call number [call] on. *)
Definition randomScatterPos (rand : Random) (call : nat) : Vec3 :=
  mkVec3 ((value (rand call) - 0.5) * 15)
         ((value (rand (call + 1)%nat) - 0.5) * 15)
         ((value (rand (call + 2)%nat) - 0.5) * 10).

(** The effect on [photos]: one particle per photo. *)
Definition newPhotoParticles (rand : Random) (photos : list string)
  : list ParticleData :=
  map_from
    (fun url i =>
       mkParticle (INR i + 1000)
                  (mkVec3 0 0 0)
                  (photoTreePos (List.length photos) i)
                  (randomScatterPos rand (3 * i))
                  PHOTO "white" 1 (Some url) (mkVec3 0 0 0))
    photos 0.

Definition setTreePos (p : ParticleData) (v : Vec3) : ParticleData :=
  mkParticle (id p) (initialPos p) v (scatterPos p) (type p) (color p)
             (scale p) (photoUrl p) (rotationSpeed p).

Definition setScatterPos (p : ParticleData) (v : Vec3) : ParticleData :=
  mkParticle (id p) (initialPos p) (treePos p) v (type p) (color p)
             (scale p) (photoUrl p) (rotationSpeed p).

(** The effect on [appState] and [photos.length]: the tree anchors are
    dealt out afresh in TREE, the scatter anchors drawn afresh in SCATTER.
    The guard looks at [photoParticles] as the render that scheduled the
    effect saw it; the updater works on [prev], the list as it is when
    the update is applied, which the effect on [photos] may have replaced
    in between.  [shuffledPositions[i]] is read within the array, see
    [shuffle]. *)
Definition relayout (rand : Random) (appState : AppState)
  (photoParticles prev : list ParticleData) : list ParticleData :=
  if (List.length photoParticles =? 0)%nat then prev
  else
    let next := prev in
    if AppState_eqb appState TREE then
      let treePositions :=
        map_from (fun _ i => photoTreePos (List.length next) i) next 0 in
      let shuffledPositions := shuffle rand treePositions in
      map_from (fun p i => setTreePos p (nth i shuffledPositions (treePos p)))
               next 0
    else if AppState_eqb appState SCATTER then
      map_from (fun p i => setScatterPos p (randomScatterPos rand (3 * i)))
               next 0
    else next.

(** *** The camera *)

Section CameraRig.

(** three.js, [camera.lookAt(0, 0, 0)]: the rotation of a camera at the
    given point that faces the origin. *)
Variable faceOrigin : Vec3 -> Vec3.

Record CameraState : Type := mkCamera {
  cam_position : Vec3;
  cam_rotation : Vec3
}.

(** The camera [useFrame]. *)
Definition cameraFrame (appState : AppState) (handData : HandTrackingResult)
  (time delta : R) (camera : CameraState) : CameraState :=
  if AppState_eqb appState SCATTER then
    let targetX := (x (position handData) - 0.5) * 10 in
    let targetY := (y (position handData) - 0.5) * 5 in
    let r := 25 in
    let desiredCamX := sin (targetX * 0.5) * r in
    let desiredCamZ := cos (targetX * 0.5) * r in
    let desiredCamY := - targetY * 2 in
    let pos :=
      Vector3_lerp (cam_position camera)
                   (mkVec3 desiredCamX desiredCamY desiredCamZ) (delta * 2) in
    mkCamera pos (faceOrigin pos)
  else if AppState_eqb appState TREE then
    let r := 25 in
    let pos :=
      mkVec3 (sin (time * 0.1) * r)
             (lerp (vy (cam_position camera)) 0 delta)
             (cos (time * 0.1) * r) in
    mkCamera pos (faceOrigin pos)
  else camera.

End CameraRig.

End Experience.

(* ================================================================= *)
(** ** src/App.tsx : the mode machine and the photo list *)

Module App.

(** The React state of [App] and its three refs. *)
Record Model : Type := mkModel {
  appState : AppState;
  photos : list string;
  isHandPresent : bool;
  currentGesture : HandGesture;
  activePhotoIndex : Z;
  appStateRef : AppState;
  photosRef : list string;
  handDataRef : HandTrackingResult
}.

Definition init : Model :=
  mkModel TREE [] false NONE 0 TREE []
          (mkResult NONE (mkVec2 0.5 0.5) false).

Definition setAppState (st : Model) (a : AppState) : Model :=
  mkModel a (photos st) (isHandPresent st) (currentGesture st)
          (activePhotoIndex st) (appStateRef st) (photosRef st)
          (handDataRef st).

Definition setPhotos (st : Model) (p : list string) : Model :=
  mkModel (appState st) p (isHandPresent st) (currentGesture st)
          (activePhotoIndex st) (appStateRef st) (photosRef st)
          (handDataRef st).

Definition setIsHandPresent (st : Model) (b : bool) : Model :=
  mkModel (appState st) (photos st) b (currentGesture st)
          (activePhotoIndex st) (appStateRef st) (photosRef st)
          (handDataRef st).

Definition setCurrentGesture (st : Model) (g : HandGesture) : Model :=
  mkModel (appState st) (photos st) (isHandPresent st) g
          (activePhotoIndex st) (appStateRef st) (photosRef st)
          (handDataRef st).

Definition setActivePhotoIndex (st : Model) (i : Z) : Model :=
  mkModel (appState st) (photos st) (isHandPresent st) (currentGesture st)
          i (appStateRef st) (photosRef st) (handDataRef st).

Definition setHandDataRef (st : Model) (r : HandTrackingResult) : Model :=
  mkModel (appState st) (photos st) (isHandPresent st) (currentGesture st)
          (activePhotoIndex st) (appStateRef st) (photosRef st) r.

(** The two [useEffect]s that copy [appState] and [photos] into their
    refs after a render. *)
Definition syncRefs (st : Model) : Model :=
  mkModel (appState st) (photos st) (isHandPresent st) (currentGesture st)
          (activePhotoIndex st) (appState st) (photos st) (handDataRef st).

(** The [switch] of the gesture state machine. *)
Definition gestureSwitch (st : Model) (result : HandTrackingResult) : Model :=
  let currentAppState := appStateRef st in
  if isPresent result then
    match gesture result with
    | FIST =>
      if negb (AppState_eqb currentAppState TREE) then setAppState st TREE
      else st
    | OPEN_PALM =>
      if negb (AppState_eqb currentAppState SCATTER)
      then setAppState st SCATTER
      else st
    | TWO_FINGERS =>
      if AppState_eqb currentAppState SCATTER
         && (0 <? List.length (photosRef st))%nat
      then setAppState st ZOOM
      else st
    | NONE => st
    end
  else st.

Definition onHandUpdateProxy (st : Model) (result : HandTrackingResult)
  : Model :=
  let st := setHandDataRef st result in
  let st :=
    setIsHandPresent st
      (if negb (Bool.eqb (isHandPresent st) (isPresent result))
       then isPresent result else isHandPresent st) in
  if negb (HandGesture_eqb (currentGesture st) (gesture result)) then
    let st := gestureSwitch st result in
    setCurrentGesture st (gesture result)
  else st.

(** [handlePhotoUpload]; [newUrls] are the object URLs of the chosen
    files. *)
Definition handlePhotoUpload (st : Model) (newUrls : list string) : Model :=
  if (0 <? List.length newUrls)%nat then setPhotos st (photos st ++ newUrls)
  else st.

Definition clearPhotos (st : Model) : Model :=
  let st := setPhotos st [] in
  setActivePhotoIndex st 0.

(** One capture tick as the application sees it: the callback, then the
    render that brings the refs up to date. *)
Definition tick (st : Model) (result : HandTrackingResult) : Model :=
  syncRefs (onHandUpdateProxy st result).

Definition run (st : Model) (results : list HandTrackingResult) : Model :=
  fold_left tick results st.

(** The refs mirror the state they shadow. *)
Definition synced (st : Model) : Prop :=
  appStateRef st = appState st /\ photosRef st = photos st.

(** *** The mode machine as the specification words it *)

(** A gesture edge [g], met in mode [s]. *)
Definition spec_transition (s : AppState) (g : HandGesture) (hasPhotos : bool)
  : AppState :=
  match g, s with
  | FIST, (SCATTER | ZOOM) => TREE
  | OPEN_PALM, (TREE | ZOOM) => SCATTER
  | TWO_FINGERS, SCATTER => if hasPhotos then ZOOM else s
  | _, _ => s
  end.

End App.

(* ================================================================= *)
(** * Properties *)

(** ** Shared facts *)

Lemma HandGesture_eqb_spec (a b : HandGesture) :
  reflect (a = b) (HandGesture_eqb a b).
Proof. destruct a, b; simpl; constructor; congruence. Qed.

Lemma HandGesture_eqb_refl (g : HandGesture) : HandGesture_eqb g g = true.
Proof. now destruct g. Qed.

Lemma HandGesture_eqb_neq (a b : HandGesture) :
  HandGesture_eqb a b = false <-> a <> b.
Proof. destruct (HandGesture_eqb_spec a b); split; congruence. Qed.

Lemma HandGesture_eqb_sym (a b : HandGesture) :
  HandGesture_eqb a b = HandGesture_eqb b a.
Proof. now destruct a, b. Qed.

Lemma num_ltb_true (a b : R) : num_ltb a b = true <-> (a < b)%R.
Proof.
  unfold num_ltb; destruct (Rlt_dec a b); split; intros; congruence || lra.
Qed.

Lemma num_ltb_false (a b : R) : num_ltb a b = false <-> (b <= a)%R.
Proof.
  unfold num_ltb; destruct (Rlt_dec a b); split; intros; congruence || lra.
Qed.

(* ================================================================= *)
(** ** The gesture classifier *)

Module ClassifierProofs.
Import HandTracking.
Local Open Scope R_scope.

(** On defined points the source's [dist] is the Euclidean distance. *)
Lemma dist_defined (p q : Vec2) :
  dist (Some p) (Some q) = Normal (distance p q).
Proof. reflexivity. Qed.

(** The chain of increments counts the folded fingers, and the cascade of
    returns is the first-match-wins classification. *)
Lemma cascade_classify (i m r p : bool) :
  (if negb i && negb m && r && p then Normal TWO_FINGERS
   else
     let c := 0%nat in
     let c := if i then S c else c in
     let c := if m then S c else c in
     let c := if r then S c else c in
     let c := if p then S c else c in
     if (3 <=? c)%nat then Normal FIST
     else if (c <=? 1)%nat then Normal OPEN_PALM else Normal OPEN_PALM)
  = Normal (spec_classify i m r p).
Proof. destruct i, m, r, p; reflexivity. Qed.

Lemma spec_classify_not_NONE (i m r p : bool) : spec_classify i m r p <> NONE.
Proof. destruct i, m, r, p; discriminate. Qed.

(** A landmark set with an entry at index 20 has one at every index the
    classifier reads. *)
Lemma nth_error_defined (lm : list Vec2) (k : nat) :
  (k < List.length lm)%nat -> nth_error lm k = Some (at_index lm k).
Proof.
  intros H. unfold at_index. now apply nth_error_nth'.
Qed.

Lemma isFingerFolded_defined (lm : list Vec2) (tip pip : nat) :
  (tip < List.length lm)%nat -> (pip < List.length lm)%nat ->
  (0 < List.length lm)%nat ->
  isFingerFolded lm (nth_error lm 0) tip pip
  = Normal (num_ltb (distance (at_index lm tip) (at_index lm 0))
                    (distance (at_index lm pip) (at_index lm 0) * 1.1)).
Proof.
  intros Ht Hp H0. unfold isFingerFolded.
  rewrite !nth_error_defined by assumption. reflexivity.
Qed.

Lemma folded_reflect (lm : list Vec2) (tip pip : nat) :
  num_ltb (distance (at_index lm tip) (at_index lm 0))
          (distance (at_index lm pip) (at_index lm 0) * 1.1) = true
  <-> spec_folded lm tip pip.
Proof.
  unfold spec_folded. rewrite num_ltb_true.
  rewrite (Rmult_comm 1.1). reflexivity.
Qed.

(** The classifier on a landmark set long enough for every read. *)
Lemma detectGesture_full (lm : list Vec2) :
  (20 < List.length lm)%nat ->
  detectGesture (Some lm)
  = Normal (spec_classify
              (num_ltb (distance (at_index lm 8) (at_index lm 0))
                       (distance (at_index lm 6) (at_index lm 0) * 1.1))
              (num_ltb (distance (at_index lm 12) (at_index lm 0))
                       (distance (at_index lm 10) (at_index lm 0) * 1.1))
              (num_ltb (distance (at_index lm 16) (at_index lm 0))
                       (distance (at_index lm 14) (at_index lm 0) * 1.1))
              (num_ltb (distance (at_index lm 20) (at_index lm 0))
                       (distance (at_index lm 18) (at_index lm 0) * 1.1))).
Proof.
  intros Hlen. unfold detectGesture.
  destruct (Nat.eqb_spec (List.length lm) 0) as [E | _]; [lia |].
  rewrite !isFingerFolded_defined by lia.
  cbv beta iota delta [bind].
  apply cascade_classify.
Qed.

(** Whatever the classifier returns on a non-empty landmark array, it is
    not [NONE]. *)
Lemma detectGesture_nonempty (lm : list Vec2) :
  lm <> [] -> detectGesture (Some lm) <> Normal NONE.
Proof.
  intros Hne. unfold detectGesture.
  destruct (Nat.eqb_spec (List.length lm) 0) as [E | _].
  - destruct lm; [congruence | discriminate].
  - destruct (isFingerFolded lm (nth_error lm 0) 8 6) as [i |];
      [| discriminate].
    destruct (isFingerFolded lm (nth_error lm 0) 12 10) as [m |];
      [| discriminate].
    destruct (isFingerFolded lm (nth_error lm 0) 16 14) as [r |];
      [| discriminate].
    destruct (isFingerFolded lm (nth_error lm 0) 20 18) as [p |];
      [| discriminate].
    cbv beta iota delta [bind]. rewrite cascade_classify.
    intros H. injection H. apply spec_classify_not_NONE.
Qed.

(** C3. On every 21-point landmark set the classifier returns the
    first-match-wins classification of the four fold flags
    [distance(tip, wrist) < 1.1 * distance(pip, wrist)] of index, middle,
    ring and pinky: TWO_FINGERS for index and middle open with ring and
    pinky folded, else FIST for three or more folded, else OPEN_PALM.  It
    returns NONE exactly for an absent or empty input, and two 21-point
    sets that differ only in the thumb landmarks 1 to 4 are classified
    alike. *)
Theorem detectGesture_spec :
  (forall lm : list Vec2, List.length lm = 21%nat ->
     exists i m r p : bool,
       (i = true <-> spec_folded lm 8 6) /\
       (m = true <-> spec_folded lm 12 10) /\
       (r = true <-> spec_folded lm 16 14) /\
       (p = true <-> spec_folded lm 20 18) /\
       detectGesture (Some lm) = Normal (spec_classify i m r p)) /\
  (forall input : option (list Vec2),
     detectGesture input = Normal NONE <-> input = None \/ input = Some []) /\
  (forall lm lm' : list Vec2,
     List.length lm = 21%nat -> List.length lm' = 21%nat ->
     (forall k, ~ thumb_index k -> at_index lm k = at_index lm' k) ->
     detectGesture (Some lm) = detectGesture (Some lm')).
Proof.
  split; [| split].
  - intros lm Hlen.
    rewrite detectGesture_full by lia.
    eexists _, _, _, _.
    split; [| split; [| split; [| split; [| reflexivity]]]];
      apply folded_reflect.
  - intros [lm |]; split.
    + intros H. right. destruct lm as [| p lm]; [reflexivity |].
      exfalso. revert H. apply detectGesture_nonempty. discriminate.
    + intros [H | H]; [discriminate |]. injection H as ->. reflexivity.
    + intros _. now left.
    + reflexivity.
  - intros lm lm' Hlen Hlen' Hsame.
    rewrite !detectGesture_full by lia.
    assert (Hk : forall k, (5 <= k)%nat \/ k = 0%nat ->
                           at_index lm k = at_index lm' k).
    { intros k Hk. apply Hsame. unfold thumb_index. lia. }
    rewrite !(Hk 0%nat), !(Hk 6%nat), !(Hk 8%nat), !(Hk 10%nat),
      !(Hk 12%nat), !(Hk 14%nat), !(Hk 16%nat), !(Hk 18%nat), !(Hk 20%nat)
      by lia.
    reflexivity.
Qed.

(** A point straight above the wrist is as far from it as it is high. *)
Lemma distance_vertical (a : R) :
  0 <= a -> distance (mkVec2 0 a) (mkVec2 0 0) = a.
Proof.
  intros Ha. unfold distance. simpl.
  replace ((0 - 0) * (0 - 0) + (a - 0) * (a - 0)) with (a * a) by ring.
  now apply sqrt_square.
Qed.

(** A peace sign: index and middle tips at twice the height of their
    pips, ring and pinky tips at half of it. *)
Lemma detectGesture_spec_witness :
  detectGesture
    (Some [mkVec2 0 0;
           mkVec2 0.3 0.2; mkVec2 0.5 0.4; mkVec2 0.6 0.6; mkVec2 0.7 0.8;
           mkVec2 0 0.5; mkVec2 0 1; mkVec2 0 1.5; mkVec2 0 2;
           mkVec2 0 0.5; mkVec2 0 1; mkVec2 0 1.5; mkVec2 0 2;
           mkVec2 0 0.5; mkVec2 0 1; mkVec2 0 0.8; mkVec2 0 0.5;
           mkVec2 0 0.5; mkVec2 0 1; mkVec2 0 0.8; mkVec2 0 0.5])
  = Normal TWO_FINGERS.
Proof.
  destruct (proj1 detectGesture_spec
              [mkVec2 0 0;
               mkVec2 0.3 0.2; mkVec2 0.5 0.4; mkVec2 0.6 0.6; mkVec2 0.7 0.8;
               mkVec2 0 0.5; mkVec2 0 1; mkVec2 0 1.5; mkVec2 0 2;
               mkVec2 0 0.5; mkVec2 0 1; mkVec2 0 1.5; mkVec2 0 2;
               mkVec2 0 0.5; mkVec2 0 1; mkVec2 0 0.8; mkVec2 0 0.5;
               mkVec2 0 0.5; mkVec2 0 1; mkVec2 0 0.8; mkVec2 0 0.5]
              eq_refl)
    as (i & m & r & p & Hi & Hm & Hr & Hp & E).
  rewrite E.
  unfold spec_folded in Hi, Hm, Hr, Hp.
  cbn [at_index nth] in Hi, Hm, Hr, Hp.
  rewrite !distance_vertical in Hi, Hm, Hr, Hp by lra.
  assert (i = false) as -> by (destruct i; [apply proj1 in Hi; lra | reflexivity]).
  assert (m = false) as -> by (destruct m; [apply proj1 in Hm; lra | reflexivity]).
  assert (r = true) as -> by (apply Hr; lra).
  assert (p = true) as -> by (apply Hp; lra).
  reflexivity.
Defined.

End ClassifierProofs.

(* ================================================================= *)
(** ** The signal stabilizer *)

Module StabilizerProofs.
Import HandController.

(** *** The counts object *)

Lemma occurrences_cons (k g : HandGesture) (h : list HandGesture) :
  occurrences k (g :: h)
  = ((if HandGesture_eqb k g then 1 else 0) + occurrences k h)%nat.
Proof.
  unfold occurrences. simpl. now destruct (HandGesture_eqb k g).
Qed.

(** Two different labels share the slots of a history. *)
Lemma occurrences_two (a b : HandGesture) (h : list HandGesture) :
  a <> b -> (occurrences a h + occurrences b h <= List.length h)%nat.
Proof.
  intros Hab. induction h as [| g h IH]; [apply Nat.le_refl |].
  rewrite !occurrences_cons. simpl.
  destruct (HandGesture_eqb_spec a g), (HandGesture_eqb_spec b g);
    subst; try congruence; lia.
Qed.

Lemma occurrences_pos_In (k : HandGesture) (h : list HandGesture) :
  (0 < occurrences k h)%nat <-> In k h.
Proof.
  induction h as [| g h IH].
  - simpl. split; [inversion 1 | tauto].
  - rewrite occurrences_cons. simpl.
    destruct (HandGesture_eqb_spec k g) as [-> | Hne].
    + split; [now left | lia].
    + rewrite Nat.add_0_l, IH. split; [now right |].
      intros [E | H]; [congruence | assumption].
Qed.

Lemma lookup_bump (acc : Counts) (g k : HandGesture) :
  lookup (bump acc g) k
  = if HandGesture_eqb g k
    then Some (S (match lookup acc k with Some n => n | None => 0%nat end))
    else lookup acc k.
Proof.
  induction acc as [| [k0 n0] acc IH]; simpl.
  - destruct (HandGesture_eqb g k); reflexivity.
  - destruct (HandGesture_eqb_spec k0 g) as [-> | Hne]; simpl.
    + destruct (HandGesture_eqb g k); reflexivity.
    + destruct (HandGesture_eqb_spec k0 k) as [-> | Hne'].
      * rewrite (proj2 (HandGesture_eqb_neq g k)) by congruence.
        reflexivity.
      * apply IH.
Qed.

Lemma lookup_fold_bump (h : list HandGesture) :
  forall (acc : Counts) (k : HandGesture),
    lookup (fold_left bump h acc) k
    = match lookup acc k, occurrences k h with
      | None, O => None
      | None, S n => Some (S n)
      | Some m, n => Some (m + n)%nat
      end.
Proof.
  induction h as [| g h IH]; intros acc k.
  - simpl. unfold occurrences. simpl.
    destruct (lookup acc k); [now rewrite Nat.add_0_r | reflexivity].
  - simpl. rewrite IH, lookup_bump, occurrences_cons.
    rewrite (HandGesture_eqb_sym k g).
    destruct (HandGesture_eqb g k), (lookup acc k), (occurrences k h);
      simpl; f_equal; lia.
Qed.

(** [counts[k]] is the number of occurrences of [k], and [undefined]
    for a label that does not occur. *)
Lemma lookup_countOccurrences (h : list HandGesture) (k : HandGesture) :
  lookup (countOccurrences h) k
  = match occurrences k h with O => None | S n => Some (S n) end.
Proof.
  unfold countOccurrences. rewrite lookup_fold_bump. reflexivity.
Qed.

Lemma lookup_In (h : list HandGesture) (k : HandGesture) :
  In k h -> lookup (countOccurrences h) k = Some (occurrences k h).
Proof.
  intros Hin. apply occurrences_pos_In in Hin.
  rewrite lookup_countOccurrences.
  destruct (occurrences k h); [lia | reflexivity].
Qed.

Lemma lookup_keys (c : Counts) (k : HandGesture) :
  In k (keys c) <-> lookup c k <> None.
Proof.
  induction c as [| [k0 n0] c IH]; simpl.
  - split; [tauto | congruence].
  - destruct (HandGesture_eqb_spec k0 k) as [-> | Hne].
    + split; [discriminate | now left].
    + rewrite <- IH. split; [intros [E | H]; [congruence | exact H] | now right].
Qed.

(** The keys of the counts object are the labels of the history. *)
Lemma keys_countOccurrences (h : list HandGesture) (k : HandGesture) :
  In k (keys (countOccurrences h)) <-> In k h.
Proof.
  rewrite lookup_keys, lookup_countOccurrences, <- occurrences_pos_In.
  destruct (occurrences k h); split; intros; try congruence; lia.
Qed.

Lemma keys_nonempty (h : list HandGesture) :
  h <> [] -> keys (countOccurrences h) <> [].
Proof.
  destruct h as [| g h]; [congruence | intros _ Hk].
  assert (Hin : In g (keys (countOccurrences (g :: h)))).
  { apply keys_countOccurrences. now left. }
  rewrite Hk in Hin. inversion Hin.
Qed.

(** *** The reduce over the keys *)

(** The reduce returns a key of maximal count, and of the keys that
    share the maximal count the one met last. *)
Lemma fold_pick (c : Counts) (m : HandGesture -> nat) (l : list HandGesture) :
  forall a : HandGesture,
    (forall k, In k (a :: l) -> lookup c k = Some (m k)) ->
    exists pre post,
      a :: l = pre ++ fold_left (pick c) l a :: post /\
      (forall k, In k pre -> (m k <= m (fold_left (pick c) l a))%nat) /\
      (forall k, In k post -> (m k < m (fold_left (pick c) l a))%nat).
Proof.
  induction l as [| b l IH] using rev_ind; intros a Hc.
  - exists [], []. simpl. repeat split; intros k [].
  - rewrite fold_left_app. simpl.
    destruct (IH a) as (pre & post & Heq & Hpre & Hpost).
    { intros k Hk. apply Hc. simpl in *. rewrite in_app_iff. tauto. }
    set (d := fold_left (pick c) l a) in *.
    assert (Hd : lookup c d = Some (m d)).
    { apply Hc. rewrite app_comm_cons, Heq, !in_app_iff. simpl. tauto. }
    assert (Hb : lookup c b = Some (m b)).
    { apply Hc. rewrite app_comm_cons, in_app_iff. simpl. tauto. }
    unfold pick. rewrite Hd, Hb. simpl.
    destruct (Nat.ltb_spec (m b) (m d)) as [Hlt | Hge].
    + exists pre, (post ++ [b]). repeat split.
      * rewrite app_comm_cons, Heq, <- app_assoc. reflexivity.
      * exact Hpre.
      * intros k Hk. apply in_app_iff in Hk as [Hk | [<- | []]];
          [now apply Hpost | exact Hlt].
    + exists (a :: l), []. repeat split.
      * intros k Hk. rewrite Heq in Hk.
        apply in_app_iff in Hk as [Hk | [<- | Hk]].
        -- specialize (Hpre k Hk). lia.
        -- exact Hge.
        -- specialize (Hpost k Hk). lia.
      * intros k [].
Qed.

(** The dominant gesture of a non-empty history: the reduce does not
    throw, and its result is the last of the most frequent keys. *)
Lemma dominantGesture_last_max (h : list HandGesture) :
  h <> [] ->
  exists d pre post,
    dominantGesture h = Normal d /\
    keys (countOccurrences h) = pre ++ d :: post /\
    (forall k, In k pre -> (occurrences k h <= occurrences d h)%nat) /\
    (forall k, In k post -> (occurrences k h < occurrences d h)%nat).
Proof.
  intros Hne. unfold dominantGesture.
  pose proof (keys_nonempty h Hne) as Hk.
  destruct (keys (countOccurrences h)) as [| a l] eqn:Ekeys; [congruence |].
  simpl.
  destruct (fold_pick (countOccurrences h) (fun k => occurrences k h) l a)
    as (pre & post & Heq & Hpre & Hpost).
  { intros k Hin. apply lookup_In. apply keys_countOccurrences.
    now rewrite Ekeys. }
  exists (fold_left (pick (countOccurrences h)) l a), pre, post.
  repeat split; assumption.
Qed.

(** The dominant gesture is a most frequent label of the history. *)
Lemma dominantGesture_max (h : list HandGesture) :
  h <> [] ->
  exists d,
    dominantGesture h = Normal d /\ In d h /\
    (forall k, (occurrences k h <= occurrences d h)%nat).
Proof.
  intros Hne.
  destruct (dominantGesture_last_max h Hne)
    as (d & pre & post & Hd & Hkeys & Hpre & Hpost).
  exists d. split; [exact Hd |].
  assert (Hin : In d h).
  { apply keys_countOccurrences. rewrite Hkeys, in_app_iff. simpl. tauto. }
  split; [exact Hin |].
  intros k.
  destruct (occurrences k h) as [| n] eqn:Ek; [lia |].
  assert (Hk : In k (keys (countOccurrences h))).
  { apply keys_countOccurrences, occurrences_pos_In. lia. }
  rewrite Hkeys in Hk. apply in_app_iff in Hk as [Hk | [<- | Hk]].
  - specialize (Hpre k Hk). lia.
  - lia.
  - specialize (Hpost k Hk). lia.
Qed.

(** *** The history buffer *)

Lemma lastn_app_lastn {A : Type} (n : nat) (a b : list A) :
  lastn n (lastn n a ++ b) = lastn n (a ++ b).
Proof.
  unfold lastn. f_equal.
  rewrite !rev_app_distr, rev_involutive, !firstn_app, firstn_firstn.
  f_equal. f_equal. lia.
Qed.

Lemma lastn_short {A : Type} (n : nat) (l : list A) :
  (List.length l <= n)%nat -> lastn n l = l.
Proof.
  intros H. unfold lastn.
  rewrite firstn_all2 by (rewrite length_rev; exact H).
  apply rev_involutive.
Qed.

Lemma lastn_length {A : Type} (n : nat) (l : list A) :
  (List.length (lastn n l) <= n)%nat.
Proof.
  unfold lastn. rewrite length_rev. apply firstn_le_length.
Qed.

(** Push-then-shift keeps the last five labels. *)
Lemma pushHistory_lastn (h : list HandGesture) (g : HandGesture) :
  (List.length h <= 5)%nat -> pushHistory h g = lastn 5 (h ++ [g]).
Proof.
  intros Hlen.
  do 6 (destruct h as [| ? h]; [reflexivity |]).
  simpl in Hlen. lia.
Qed.

Lemma pushHistory_nonempty (h : list HandGesture) (g : HandGesture) :
  pushHistory h g <> [].
Proof.
  unfold pushHistory.
  destruct (Nat.ltb_spec 5 (List.length (h ++ [g]))) as [Hlt | _].
  - destruct h as [| a [| b h]]; simpl in *; try lia; discriminate.
  - destruct h; discriminate.
Qed.

(** *** One frame *)

(** The smoothed position a frame leaves behind. *)
Lemma stabilize_position (st : Refs) (f : RawFrame) :
  prevPositionRef (fst (stabilize st f))
  = if raw_isPresent f
    then mkVec2 (x (prevPositionRef st)
                 + (rawX f - x (prevPositionRef st)) * smoothingFactor)%R
                (y (prevPositionRef st)
                 + (rawY f - y (prevPositionRef st)) * smoothingFactor)%R
    else prevPositionRef st.
Proof.
  unfold stabilize. destruct (raw_isPresent f); [| reflexivity].
  destruct (dominantGesture _); reflexivity.
Qed.

(** A frame without a hand. *)
Lemma stabilize_absent (st : Refs) (f : RawFrame) :
  raw_isPresent f = false ->
  stabilize st f
  = (mkRefs (prevPositionRef st) [] NONE,
     Normal (mkResult NONE (prevPositionRef st) false)).
Proof. intros H. unfold stabilize. rewrite H. reflexivity. Qed.

(** A frame with a hand: the callback does not throw, and emits the
    dominant label when it occurs three times, else what it emitted
    before. *)
Lemma stabilize_present (st : Refs) (f : RawFrame) :
  raw_isPresent f = true ->
  exists d,
    let h := pushHistory (gestureHistoryRef st) (raw_gesture f) in
    let last := if (3 <=? occurrences d h)%nat then d
                else lastEmittedGestureRef st in
    In d h /\
    (forall k, (occurrences k h <= occurrences d h)%nat) /\
    stabilize st f
    = (mkRefs (prevPositionRef (fst (stabilize st f))) h last,
       Normal (mkResult last (prevPositionRef (fst (stabilize st f))) true)).
Proof.
  intros Hp.
  destruct (dominantGesture_max
              (pushHistory (gestureHistoryRef st) (raw_gesture f)))
    as (d & Hd & Hin & Hmax); [apply pushHistory_nonempty |].
  exists d. cbv zeta. split; [exact Hin | split; [exact Hmax |]].
  rewrite stabilize_position.
  unfold stabilize. rewrite Hp, Hd, (lookup_In _ _ Hin). reflexivity.
Qed.

(** Every frame emits a result; it carries the presence flag of the
    frame and the gesture and position the refs hold afterwards. *)
Lemma stabilize_emits (st : Refs) (f : RawFrame) :
  exists out,
    snd (stabilize st f) = Normal out /\
    gesture out = lastEmittedGestureRef (fst (stabilize st f)) /\
    position out = prevPositionRef (fst (stabilize st f)) /\
    isPresent out = raw_isPresent f.
Proof.
  destruct (raw_isPresent f) eqn:Hp.
  - destruct (stabilize_present st f Hp) as (d & _ & _ & ->).
    eexists. simpl. repeat split.
  - rewrite (stabilize_absent st f Hp). eexists. simpl. repeat split.
Qed.

(** The invariant of the emitted state: no hand, no gesture. *)
Lemma stabilize_invariant (st : Refs) (f : RawFrame) (out : HandTrackingResult) :
  snd (stabilize st f) = Normal out ->
  isPresent out = false -> gesture out = NONE.
Proof.
  intros Hout Habs.
  destruct (raw_isPresent f) eqn:Hp.
  - destruct (stabilize_present st f Hp) as (d & _ & _ & E).
    rewrite E in Hout. simpl in Hout. injection Hout as <-.
    discriminate.
  - rewrite (stabilize_absent st f Hp) in Hout. simpl in Hout.
    injection Hout as <-. reflexivity.
Qed.

(** The debounce rule of one present frame on a history of at most five
    labels. *)
Lemma debounce_step (st : Refs) (f : RawFrame) :
  raw_isPresent f = true ->
  (List.length (gestureHistoryRef st) <= 5)%nat ->
  let st' := fst (stabilize st f) in
  let h' := gestureHistoryRef st' in
  h' = lastn 5 (gestureHistoryRef st ++ [raw_gesture f]) /\
  (forall m, (3 <= occurrences m h')%nat ->
             lastEmittedGestureRef st' = m /\
             forall k, (occurrences k h' <= occurrences m h')%nat) /\
  (no_majority h' -> lastEmittedGestureRef st' = lastEmittedGestureRef st).
Proof.
  intros Hp Hlen.
  destruct (stabilize_present st f Hp) as (d & Hin & Hmax & E).
  cbv zeta in *. rewrite E.
  cbn [fst gestureHistoryRef lastEmittedGestureRef].
  rewrite <- (pushHistory_lastn _ (raw_gesture f) Hlen).
  set (h := pushHistory (gestureHistoryRef st) (raw_gesture f)) in *.
  assert (Hh : (List.length h <= 5)%nat).
  { unfold h. rewrite (pushHistory_lastn _ (raw_gesture f) Hlen). apply lastn_length. }
  split; [reflexivity | split].
  - intros m Hm.
    assert (d = m) as ->.
    { destruct (HandGesture_eqb_spec d m) as [-> | Hne]; [reflexivity |].
      pose proof (occurrences_two d m h Hne). specialize (Hmax m). lia. }
    destruct (Nat.leb_spec 3 (occurrences m h)); [| lia].
    split; [reflexivity | exact Hmax].
  - intros Hno. specialize (Hno d).
    destruct (Nat.leb_spec 3 (occurrences d h)); [lia | reflexivity].
Qed.

(** *** Runs of frames *)

Lemma feed_cons (st : Refs) (f : RawFrame) (fs : list RawFrame) :
  feed st (f :: fs) = feed (fst (stabilize st f)) fs.
Proof. reflexivity. Qed.

Lemma feed_snoc (st : Refs) (fs : list RawFrame) (f : RawFrame) :
  feed st (fs ++ [f]) = fst (stabilize (feed st fs) f).
Proof. unfold feed. now rewrite fold_left_app. Qed.

Lemma emitted_cons (st : Refs) (f : RawFrame) (fs : list RawFrame) :
  emitted st (f :: fs)
  = Some (lastEmittedGestureRef (fst (stabilize st f)))
      :: emitted (fst (stabilize st f)) fs.
Proof.
  simpl. destruct (stabilize_emits st f) as (out & Ho & Hg & _).
  destruct (stabilize st f) as [st' o]. simpl in *. subst o.
  now rewrite Hg.
Qed.

Lemma emitted_snoc (st : Refs) (fs : list RawFrame) (f : RawFrame) :
  emitted st (fs ++ [f])
  = emitted st fs ++ [Some (lastEmittedGestureRef (feed st (fs ++ [f])))].
Proof.
  revert st. induction fs as [| f0 fs IH]; intros st.
  - simpl app. rewrite emitted_cons. reflexivity.
  - rewrite <- app_comm_cons, !emitted_cons, IH, feed_cons.
    reflexivity.
Qed.

(** Over a run of present frames the history is the last five labels of
    what was there followed by what came in. *)
Lemma feed_history (frames : list RawFrame) :
  forall st : Refs,
    all_present frames ->
    (List.length (gestureHistoryRef st) <= 5)%nat ->
    gestureHistoryRef (feed st frames)
    = lastn 5 (gestureHistoryRef st ++ map raw_gesture frames).
Proof.
  induction frames as [| f fs IH]; intros st Hall Hlen.
  - simpl. rewrite app_nil_r. symmetry. now apply lastn_short.
  - inversion Hall as [| ? ? Hp Hall']; subst.
    destruct (debounce_step st f Hp Hlen) as (Hh & _).
    rewrite feed_cons, IH; [| exact Hall' |].
    + rewrite Hh, lastn_app_lastn, <- app_assoc. reflexivity.
    + rewrite Hh. apply lastn_length.
Qed.

(** The history never holds more than five labels, hand or no hand. *)
Lemma feed_history_bound (frames : list RawFrame) :
  forall st : Refs,
    (List.length (gestureHistoryRef st) <= 5)%nat ->
    (List.length (gestureHistoryRef (feed st frames)) <= 5)%nat.
Proof.
  induction frames as [| f fs IH]; intros st Hlen; [exact Hlen |].
  rewrite feed_cons. apply IH.
  destruct (raw_isPresent f) eqn:Hp.
  - destruct (debounce_step st f Hp Hlen) as (-> & _).
    apply lastn_length.
  - rewrite (stabilize_absent st f Hp). simpl. lia.
Qed.

Corollary reachable_history_bound (frames : list RawFrame) :
  (List.length (gestureHistoryRef (feed init frames)) <= 5)%nat.
Proof. apply feed_history_bound. simpl. lia. Qed.

(** *** Debouncing *)

(** C4. On a history of at most five labels a present frame leaves the
    last five labels of the history with the raw label appended, and
    emits the label that occurs at least three times in it (then the most
    frequent one), or else what was emitted before.  Five present frames
    with the same raw label end with that label emitted; a run of present
    frames that never brings a label to three of five leaves the emitted
    gesture as it was, on every frame of the run. *)
Theorem debounce_spec (st : Refs) :
  (List.length (gestureHistoryRef st) <= 5)%nat ->
  (forall f : RawFrame, raw_isPresent f = true ->
     let st' := fst (stabilize st f) in
     let h' := gestureHistoryRef st' in
     h' = lastn 5 (gestureHistoryRef st ++ [raw_gesture f]) /\
     (List.length h' <= 5)%nat /\
     snd (stabilize st f)
     = Normal (mkResult (lastEmittedGestureRef st') (prevPositionRef st') true) /\
     (forall m, (3 <= occurrences m h')%nat ->
                lastEmittedGestureRef st' = m /\
                forall k, (occurrences k h' <= occurrences m h')%nat) /\
     (no_majority h' -> lastEmittedGestureRef st' = lastEmittedGestureRef st)) /\
  (forall (g : HandGesture) (frames : list RawFrame),
     List.length frames = 5%nat -> all_present frames ->
     Forall (fun f => raw_gesture f = g) frames ->
     lastEmittedGestureRef (feed st frames) = g /\
     last (emitted st frames) None = Some g) /\
  (forall frames : list RawFrame,
     all_present frames ->
     never_reaches_majority (gestureHistoryRef st) (map raw_gesture frames) ->
     lastEmittedGestureRef (feed st frames) = lastEmittedGestureRef st /\
     emitted st frames = map (fun _ => Some (lastEmittedGestureRef st)) frames).
Proof.
  intros Hlen. split; [| split].
  - intros f Hp. cbv zeta.
    destruct (debounce_step st f Hp Hlen) as (Hh & Hmaj & Hno).
    split; [exact Hh | split; [| split; [| split; assumption]]].
    + rewrite Hh. apply lastn_length.
    + destruct (stabilize_emits st f) as (out & Ho & Hg & Hpos & Hpr).
      rewrite Ho. destruct out as [g p b]. simpl in *. congruence.
  - intros g frames Hn Hall Hsame.
    destruct frames as [| r frames]; [discriminate |].
    destruct frames as [| r0 frames]; [discriminate |].
    destruct frames as [| r1 frames]; [discriminate |].
    destruct frames as [| r2 frames]; [discriminate |].
    destruct frames as [| r3 frames]; [discriminate |].
    destruct frames; [| discriminate].
    change [r; r0; r1; r2; r3] with ([r; r0; r1; r2] ++ [r3]) in *.
    apply Forall_app in Hall as [Hall4 Hp5].
    apply Forall_app in Hsame as [Hsame4 Hg5].
    inversion Hp5 as [| ? ? Hp _]; subst. clear Hp5.
    inversion Hg5 as [| ? ? Hg _]; subst. clear Hg5.
    assert (Hgs : map raw_gesture [r; r0; r1; r2]
                  = [raw_gesture r3; raw_gesture r3; raw_gesture r3;
                     raw_gesture r3]).
    { repeat match goal with
             | H : Forall _ (_ :: _) |- _ => inversion H; subst; clear H
             end.
      simpl. congruence. }
    set (s4 := feed st [r; r0; r1; r2]).
    assert (Hh4 : gestureHistoryRef s4
                  = lastn 5 (gestureHistoryRef st ++ map raw_gesture [r; r0; r1; r2]))
      by (apply feed_history; assumption).
    assert (Hlen4 : (List.length (gestureHistoryRef s4) <= 5)%nat)
      by (rewrite Hh4; apply lastn_length).
    destruct (debounce_step s4 r3 Hp Hlen4) as (Hh & Hmaj & _).
    assert (Hfive : gestureHistoryRef (fst (stabilize s4 r3))
                    = [raw_gesture r3; raw_gesture r3; raw_gesture r3;
                       raw_gesture r3; raw_gesture r3]).
    { rewrite Hh, Hh4, lastn_app_lastn, Hgs, <- app_assoc.
      unfold lastn. rewrite rev_app_distr. reflexivity. }
    assert (Hlast : lastEmittedGestureRef (feed st ([r; r0; r1; r2] ++ [r3]))
                    = raw_gesture r3).
    { rewrite feed_snoc. apply Hmaj. fold s4. rewrite Hfive.
      unfold occurrences. simpl. rewrite HandGesture_eqb_refl. simpl. lia. }
    split; [exact Hlast |].
    rewrite emitted_snoc, last_last, Hlast. reflexivity.
  - intros frames. revert st Hlen.
    induction frames as [| f fs IH]; intros st Hlen Hall Hnever.
    + split; reflexivity.
    + inversion Hall as [| ? ? Hp Hall']; subst.
      destruct (debounce_step st f Hp Hlen) as (Hh & _ & Hno).
      assert (H1 : lastEmittedGestureRef (fst (stabilize st f))
                   = lastEmittedGestureRef st).
      { apply Hno. rewrite Hh.
        apply (Hnever 1%nat). simpl. lia. }
      destruct (IH (fst (stabilize st f))) as (Hl & He).
      * rewrite Hh. apply lastn_length.
      * exact Hall'.
      * intros k Hk. rewrite Hh, lastn_app_lastn, <- app_assoc.
        apply (Hnever (S k)). simpl. lia.
      * rewrite feed_cons, emitted_cons, Hl, He, H1. split; reflexivity.
Qed.

(** Five fists in a row emit FIST; fist and open palm taking turns for
    four frames emit nothing new. *)
Lemma debounce_spec_witness :
  lastEmittedGestureRef
    (feed init (map (present 0.5 0.5) [FIST; FIST; FIST; FIST; FIST])) = FIST /\
  lastEmittedGestureRef
    (feed init (map (present 0.5 0.5) [FIST; OPEN_PALM; FIST; OPEN_PALM]))
  = NONE.
Proof.
  assert (Hlen : (List.length (gestureHistoryRef init) <= 5)%nat)
    by (simpl; lia).
  destruct (debounce_spec init Hlen) as (_ & H5 & Hno).
  split.
  - apply (H5 FIST); [reflexivity | |];
      repeat constructor.
  - apply Hno; [repeat constructor |].
    intros k Hk g. simpl in Hk.
    destruct k as [| [| [| [| [| k]]]]]; try lia;
      destruct g; cbv; lia.
Defined.

(** *** Loss of presence *)

(** C5. A frame without a hand clears the history, emits NONE and hands
    on the smoothed position as it was, whatever the refs held and after
    any run of frames; the same holds of the whole callback when the
    landmark source reports no hand.  Every frame emits a result, and an
    emitted result without a hand carries the gesture NONE. *)
Theorem presence_loss_immediate (st : Refs) (g : HandGesture) (rx ry : R) :
  stabilize st (mkRaw g rx ry false)
  = (mkRefs (prevPositionRef st) [] NONE,
     Normal (mkResult NONE (prevPositionRef st) false)) /\
  (forall frames : list RawFrame,
     stabilize (feed st frames) (mkRaw g rx ry false)
     = (mkRefs (prevPositionRef (feed st frames)) [] NONE,
        Normal (mkResult NONE (prevPositionRef (feed st frames)) false))) /\
  onResults true st (mkResults None)
  = (mkRefs (prevPositionRef st) [] NONE,
     Normal (Some (mkResult NONE (prevPositionRef st) false))) /\
  onResults true st (mkResults (Some []))
  = (mkRefs (prevPositionRef st) [] NONE,
     Normal (Some (mkResult NONE (prevPositionRef st) false))) /\
  (forall f : RawFrame,
     exists out, snd (stabilize st f) = Normal out /\
                 isPresent out = raw_isPresent f /\
                 (isPresent out = false -> gesture out = NONE)) /\
  (forall (isMounted : bool) (results : Results) (st' : Refs)
          (out : HandTrackingResult),
     onResults isMounted st results = (st', Normal (Some out)) ->
     isPresent out = false -> gesture out = NONE).
Proof.
  split; [reflexivity | split; [reflexivity |]].
  split; [reflexivity | split; [reflexivity | split]].
  - intros f. destruct (stabilize_emits st f) as (out & Ho & _ & _ & Hp).
    exists out. split; [exact Ho | split; [exact Hp |]].
    now apply stabilize_invariant with (st := st) (f := f).
  - intros isMounted results st' out. unfold onResults.
    destruct isMounted; simpl; [| discriminate].
    destruct (readFrame results) as [f |]; [| discriminate].
    destruct (stabilize st f) as [s o] eqn:E.
    destruct o as [r |]; simpl; [| discriminate].
    intros H. injection H as _ ->.
    apply stabilize_invariant with (st := st) (f := f).
    now rewrite E.
Qed.

(** A hand shown for three frames and then lost. *)
Lemma presence_loss_immediate_witness :
  snd (stabilize
         (feed init (map (present 0.2 0.8) [FIST; FIST; FIST]))
         (mkRaw NONE 0.5 0.5 false))
  = Normal (mkResult NONE
              (prevPositionRef
                 (feed init (map (present 0.2 0.8) [FIST; FIST; FIST])))
              false).
Proof.
  destruct (presence_loss_immediate init NONE 0.5 0.5) as (_ & H & _).
  rewrite H. reflexivity.
Defined.

(** *** The tie-break *)

(** With two fists followed by two open palms in the history, the keys
    are met in the order FIST, OPEN_PALM, both count two, and the reduce
    yields OPEN_PALM, which is not the first of the two. *)
Lemma tie_break_first_fails :
  let h := [FIST; FIST; OPEN_PALM; OPEN_PALM] in
  gestureHistoryRef (feed init (map (present 0.5 0.5) h)) = h /\
  keys (countOccurrences h) = [FIST; OPEN_PALM] /\
  occurrences FIST h = occurrences OPEN_PALM h /\
  dominantGesture h = Normal OPEN_PALM /\
  ~ first_of_most_frequent h OPEN_PALM.
Proof.
  cbv zeta. split; [| split; [| split; [| split]]].
  - rewrite feed_history; [reflexivity | repeat constructor | simpl; lia].
  - reflexivity.
  - reflexivity.
  - reflexivity.
  - intros (pre & post & Hk & Hpre & _).
    change (keys (countOccurrences [FIST; FIST; OPEN_PALM; OPEN_PALM]))
      with [FIST; OPEN_PALM] in Hk.
    destruct pre as [| a [| b pre]].
    + discriminate.
    + injection Hk as <- _. specialize (Hpre FIST (or_introl eq_refl)).
      cbv in Hpre. lia.
    + injection Hk as _ _ Hk. destruct pre; discriminate.
Qed.

(** C8, as the code has it.  On a present frame the dominant gesture is,
    among the keys of the counts that carry the greatest count, the one
    met last in iteration order: the reduce gives up its accumulator
    unless its count is strictly greater.  The emitted gesture is the
    dominant one when it occurs three times, else the previous one. *)
Theorem tie_break_last (st : Refs) (f : RawFrame) :
  raw_isPresent f = true ->
  let h := pushHistory (gestureHistoryRef st) (raw_gesture f) in
  exists d,
    dominantGesture h = Normal d /\
    last_of_most_frequent h d /\
    lastEmittedGestureRef (fst (stabilize st f))
    = if (3 <=? occurrences d h)%nat then d else lastEmittedGestureRef st.
Proof.
  intros Hp h.
  destruct (dominantGesture_last_max h)
    as (d & pre & post & Hd & Hkeys & Hpre & Hpost);
    [apply pushHistory_nonempty |].
  exists d. split; [exact Hd | split].
  - exists pre, post. repeat split; assumption.
  - assert (Hin : In d h).
    { apply keys_countOccurrences. rewrite Hkeys, in_app_iff.
      simpl. tauto. }
    unfold stabilize. rewrite Hp. fold h. rewrite Hd.
    cbn [fst lastEmittedGestureRef].
    rewrite (lookup_In _ _ Hin). reflexivity.
Qed.

(** The fourth frame of fist, fist, open palm, open palm. *)
Lemma tie_break_last_witness :
  exists d,
    dominantGesture
      (pushHistory [FIST; FIST; OPEN_PALM] OPEN_PALM) = Normal d /\
    last_of_most_frequent (pushHistory [FIST; FIST; OPEN_PALM] OPEN_PALM) d /\
    lastEmittedGestureRef
      (fst (stabilize (mkRefs (mkVec2 0.5 0.5) [FIST; FIST; OPEN_PALM] NONE)
                      (present 0.5 0.5 OPEN_PALM)))
    = if (3 <=? occurrences d
                  (pushHistory [FIST; FIST; OPEN_PALM] OPEN_PALM))%nat
      then d else NONE.
Proof.
  apply (tie_break_last (mkRefs (mkVec2 0.5 0.5) [FIST; FIST; OPEN_PALM] NONE)
                        (present 0.5 0.5 OPEN_PALM)).
  reflexivity.
Defined.

End StabilizerProofs.

(* ================================================================= *)
(** ** Position smoothing *)

Module SmoothingProofs.
Import HandController StabilizerProofs.
Local Open Scope R_scope.

(** A run of present frames, all at raw position [(cx, cy)]. *)
Lemma feed_constant (cx cy : R) (gs : list HandGesture) :
  forall st : Refs,
    let st' := feed st (map (present cx cy) gs) in
    x (prevPositionRef st') - cx
    = 0.9 ^ List.length gs * (x (prevPositionRef st) - cx) /\
    y (prevPositionRef st') - cy
    = 0.9 ^ List.length gs * (y (prevPositionRef st) - cy).
Proof.
  induction gs as [| g gs IH]; intros st; cbv zeta.
  - simpl. split; ring.
  - change (map (present cx cy) (g :: gs))
      with (present cx cy g :: map (present cx cy) gs).
    rewrite feed_cons.
    destruct (IH (fst (stabilize st (present cx cy g)))) as (Hx & Hy).
    rewrite Hx, Hy, stabilize_position.
    unfold smoothingFactor. simpl. split; lra.
Qed.

Lemma Rabs_scale (n : nat) (e : R) : Rabs (0.9 ^ n * e) = 0.9 ^ n * Rabs e.
Proof.
  rewrite Rabs_mult. f_equal. apply Rabs_pos_eq.
  apply pow_le. lra.
Qed.

(** C9. A present frame moves each smoothed coordinate to
    [smoothed + 0.1 * (raw - smoothed)].  Under a constant raw position
    [(cx, cy)] the error of each coordinate after [n] present frames is
    [0.9 ^ n] times the initial one, and for every positive [eps] there
    is a number of frames from which on both errors stay below [eps]. *)
Theorem smoothing_geometric (st : Refs) (cx cy : R) :
  (forall (g : HandGesture) (rx ry : R),
     prevPositionRef (fst (stabilize st (present rx ry g)))
     = mkVec2 (x (prevPositionRef st) + 0.1 * (rx - x (prevPositionRef st)))
              (y (prevPositionRef st) + 0.1 * (ry - y (prevPositionRef st)))) /\
  (forall gs : list HandGesture,
     let st' := feed st (map (present cx cy) gs) in
     Rabs (x (prevPositionRef st') - cx)
     = 0.9 ^ List.length gs * Rabs (x (prevPositionRef st) - cx) /\
     Rabs (y (prevPositionRef st') - cy)
     = 0.9 ^ List.length gs * Rabs (y (prevPositionRef st) - cy)) /\
  (forall eps : R, 0 < eps ->
     exists N : nat,
       forall gs : list HandGesture, (N <= List.length gs)%nat ->
         let st' := feed st (map (present cx cy) gs) in
         Rabs (x (prevPositionRef st') - cx) < eps /\
         Rabs (y (prevPositionRef st') - cy) < eps).
Proof.
  split; [| split].
  - intros g rx ry. rewrite stabilize_position. simpl.
    unfold smoothingFactor. f_equal; ring.
  - intros gs. cbv zeta.
    destruct (feed_constant cx cy gs st) as (Hx & Hy).
    rewrite Hx, Hy, !Rabs_scale. split; reflexivity.
  - intros eps Heps.
    set (E := Rabs (x (prevPositionRef st) - cx)
              + Rabs (y (prevPositionRef st) - cy) + 1).
    assert (HE : 0 < E).
    { unfold E.
      pose proof (Rabs_pos (x (prevPositionRef st) - cx)).
      pose proof (Rabs_pos (y (prevPositionRef st) - cy)). lra. }
    destruct (pow_lt_1_zero 0.9) with (y := eps / E) as (N & HN).
    { rewrite Rabs_pos_eq; lra. }
    { now apply Rdiv_lt_0_compat. }
    exists N. intros gs Hlen. cbv zeta.
    destruct (feed_constant cx cy gs st) as (Hx & Hy).
    rewrite Hx, Hy, !Rabs_scale.
    specialize (HN (List.length gs) Hlen).
    rewrite Rabs_pos_eq in HN by (apply pow_le; lra).
    assert (Hp : 0 <= 0.9 ^ List.length gs) by (apply pow_le; lra).
    assert (Hlt : 0.9 ^ List.length gs * E < eps).
    { apply (Rmult_lt_compat_r E) in HN; [| exact HE].
      unfold Rdiv in HN. rewrite Rmult_assoc, Rinv_l in HN; lra. }
    pose proof (Rabs_pos (x (prevPositionRef st) - cx)) as Hax.
    pose proof (Rabs_pos (y (prevPositionRef st) - cy)) as Hay.
    unfold E in Hlt. split; nra.
Qed.

(** From the initial centre towards the corner [(1, 0)], within one
    tenth. *)
Lemma smoothing_geometric_witness :
  exists N : nat,
    forall gs : list HandGesture, (N <= List.length gs)%nat ->
      let st' := feed init (map (present 1 0) gs) in
      Rabs (x (prevPositionRef st') - 1) < 0.1 /\
      Rabs (y (prevPositionRef st') - 0) < 0.1.
Proof.
  apply (proj2 (proj2 (smoothing_geometric init 1 0))). lra.
Defined.

End SmoothingProofs.

(* ================================================================= *)
(** ** The mode machine and the photo list *)

Module AppProofs.
Import App.

Lemma tick_synced (st : Model) (r : HandTrackingResult) : synced (tick st r).
Proof. split; reflexivity. Qed.

Lemma run_synced (rs : list HandTrackingResult) :
  forall st : Model, synced st -> synced (run st rs).
Proof.
  induction rs as [| r rs IH]; intros st H; [exact H |].
  apply IH, tick_synced.
Qed.

(** Without an edge the callback leaves the mode alone. *)
Lemma no_edge_no_change (st : Model) (r : HandTrackingResult) :
  gesture r = currentGesture st ->
  appState (onHandUpdateProxy st r) = appState st.
Proof.
  intros E. unfold onHandUpdateProxy. simpl.
  rewrite <- E, HandGesture_eqb_refl. reflexivity.
Qed.

(** On an edge the callback takes the transition of the specification. *)
Lemma edge_transition (st : Model) (r : HandTrackingResult) :
  synced st ->
  (isPresent r = false -> gesture r = NONE) ->
  gesture r <> currentGesture st ->
  appState (onHandUpdateProxy st r)
  = spec_transition (appState st) (gesture r)
                    (0 <? List.length (photos st))%nat.
Proof.
  intros [Ha Hp] Hinv Hedge.
  destruct st as [a ps hp cg idx aref pref hd]. simpl in *. subst aref pref.
  unfold onHandUpdateProxy. simpl.
  rewrite (proj2 (HandGesture_eqb_neq cg (gesture r))) by congruence.
  unfold gestureSwitch. simpl.
  destruct (isPresent r).
  - destruct (gesture r), a; simpl; try reflexivity;
      destruct (0 <? List.length ps)%nat; reflexivity.
  - rewrite Hinv by reflexivity. destruct a; reflexivity.
Qed.

(** C2. The machine starts in TREE (ASSEMBLED).  Fed an emitted result,
    one that carries NONE when no hand is present, with the refs in step
    with the state, the callback leaves the mode alone when the gesture
    is the one it saw last, and on an edge takes the transition of the
    specification: FIST leads to TREE, OPEN_PALM to SCATTER, TWO_FINGERS
    to ZOOM from SCATTER with at least one photo, and every other pair
    changes nothing.  The gesture is recorded as the last one seen. *)
Theorem mode_machine (st : Model) (r : HandTrackingResult) :
  synced st ->
  (isPresent r = false -> gesture r = NONE) ->
  appState init = TREE /\
  (gesture r = currentGesture st ->
   appState (onHandUpdateProxy st r) = appState st) /\
  (gesture r <> currentGesture st ->
   appState (onHandUpdateProxy st r)
   = spec_transition (appState st) (gesture r)
                     (0 <? List.length (photos st))%nat /\
   (gesture r = FIST -> appState (onHandUpdateProxy st r) = TREE) /\
   (gesture r = OPEN_PALM -> appState (onHandUpdateProxy st r) = SCATTER) /\
   (gesture r = TWO_FINGERS ->
    (appState st = SCATTER /\ photos st <> [] ->
     appState (onHandUpdateProxy st r) = ZOOM) /\
    (~ (appState st = SCATTER /\ photos st <> []) ->
     appState (onHandUpdateProxy st r) = appState st)) /\
   (gesture r = NONE -> appState (onHandUpdateProxy st r) = appState st)) /\
  currentGesture (onHandUpdateProxy st r) = gesture r /\
  appState (tick st r) = appState (onHandUpdateProxy st r) /\
  synced (tick st r).
Proof.
  intros Hs Hinv.
  split; [reflexivity |].
  split; [apply no_edge_no_change |].
  split.
  - intros Hedge. rewrite (edge_transition st r Hs Hinv Hedge).
    split; [reflexivity |].
    split; [| split; [| split]]; intros ->.
    + destruct (appState st); reflexivity.
    + destruct (appState st); reflexivity.
    + split.
      * intros [-> Hne]. destruct (photos st); [congruence | reflexivity].
      * intros Hn. destruct (appState st); try reflexivity.
        destruct (photos st) eqn:E; [reflexivity |].
        exfalso. apply Hn. split; [reflexivity | discriminate].
    + destruct (appState st); reflexivity.
  - split; [| split; [reflexivity | apply tick_synced]].
    unfold onHandUpdateProxy. simpl.
    destruct (HandGesture_eqb_spec (currentGesture st) (gesture r)) as [E | _];
      simpl; [exact E | reflexivity].
Qed.

(** The first edge of a session: an open palm scatters the tree. *)
Lemma mode_machine_witness :
  appState (onHandUpdateProxy init (mkResult OPEN_PALM (mkVec2 0.5 0.5) true))
  = SCATTER.
Proof.
  destruct (mode_machine init (mkResult OPEN_PALM (mkVec2 0.5 0.5) true))
    as (_ & _ & H & _).
  - split; reflexivity.
  - discriminate.
  - destruct H as (_ & _ & H & _); [discriminate |].
    apply H. reflexivity.
Defined.

(** The walk of the specification: open palm, two fingers, fist, with a
    photo loaded, passes through SCATTER and ZOOM back to TREE. *)
Example walk_with_photos :
  let hand g := mkResult g (mkVec2 0.5 0.5) true in
  let st0 := syncRefs (handlePhotoUpload init ["blob:1"%string]) in
  appState (run st0 [hand OPEN_PALM]) = SCATTER /\
  appState (run st0 [hand OPEN_PALM; hand TWO_FINGERS]) = ZOOM /\
  appState (run st0 [hand OPEN_PALM; hand TWO_FINGERS; hand FIST]) = TREE.
Proof. repeat split. Qed.

(** The same walk without photos stays in SCATTER on the two fingers. *)
Example walk_without_photos :
  let hand g := mkResult g (mkVec2 0.5 0.5) true in
  appState (run init [hand OPEN_PALM]) = SCATTER /\
  appState (run init [hand OPEN_PALM; hand TWO_FINGERS]) = SCATTER.
Proof. repeat split. Qed.

(** C10. Clear-all empties the photo list and sets the selection index
    to 0; the mode, the hand flag, the last gesture and the refs are as
    before, also when the mode is ZOOM (FOCUSED), and the render that
    follows only brings the photo ref up to date. *)
Theorem clearPhotos_frame (st : Model) :
  photos (clearPhotos st) = [] /\
  activePhotoIndex (clearPhotos st) = 0%Z /\
  appState (clearPhotos st) = appState st /\
  isHandPresent (clearPhotos st) = isHandPresent st /\
  currentGesture (clearPhotos st) = currentGesture st /\
  handDataRef (clearPhotos st) = handDataRef st /\
  appStateRef (clearPhotos st) = appStateRef st /\
  photosRef (clearPhotos st) = photosRef st /\
  appState (clearPhotos (setAppState st ZOOM)) = ZOOM /\
  appState (syncRefs (clearPhotos st)) = appState st /\
  photosRef (syncRefs (clearPhotos st)) = [].
Proof. repeat split. Qed.

End AppProofs.

(* ================================================================= *)
(** ** The animator *)

Module AnimatorProofs.
Import Experience.
Local Open Scope R_scope.

Lemma lerp_approach (a b rate delta : R) :
  lerp a b (rate * delta) = approach a b rate delta.
Proof. unfold lerp, approach. ring. Qed.

Lemma lerp_approach' (a b rate delta : R) :
  lerp a b (delta * rate) = approach a b rate delta.
Proof. unfold lerp, approach. ring. Qed.

Lemma Vector3_lerp_approach (a b : Vec3) (rate delta : R) :
  Vector3_lerp a b (delta * rate) = approach3 a b rate delta.
Proof. unfold Vector3_lerp, approach3, approach. f_equal; ring. Qed.

Lemma lerpSpeed_rate (appState : AppState) (delta : R) :
  lerpSpeed appState delta = ornamentRate appState * delta.
Proof. destruct appState; reflexivity. Qed.

(** One step of the approach moves by [rate * |delta|] times the distance
    to the target. *)
Lemma approach3_step (c t : Vec3) (rate delta : R) :
  0 <= rate ->
  norm3 (sub3 (approach3 c t rate delta) c)
  = rate * Rabs delta * norm3 (sub3 t c).
Proof.
  intros Hr. unfold norm3, sub3, approach3, approach. simpl.
  replace ((vx c + (vx t - vx c) * rate * delta - vx c)
           * (vx c + (vx t - vx c) * rate * delta - vx c)
           + (vy c + (vy t - vy c) * rate * delta - vy c)
             * (vy c + (vy t - vy c) * rate * delta - vy c)
           + (vz c + (vz t - vz c) * rate * delta - vz c)
             * (vz c + (vz t - vz c) * rate * delta - vz c))
    with (Rsqr (rate * delta)
          * ((vx t - vx c) * (vx t - vx c) + (vy t - vy c) * (vy t - vy c)
             + (vz t - vz c) * (vz t - vz c)))
    by (unfold Rsqr; ring).
  rewrite sqrt_mult.
  - rewrite sqrt_Rsqr_abs, Rabs_mult, (Rabs_pos_eq rate Hr). reflexivity.
  - apply Rle_0_sqr.
  - pose proof (Rle_0_sqr (vx t - vx c)) as Hx.
    pose proof (Rle_0_sqr (vy t - vy c)) as Hy.
    pose proof (Rle_0_sqr (vz t - vz c)) as Hz.
    unfold Rsqr in Hx, Hy, Hz. lra.
Qed.

Lemma approach3_bound (c t : Vec3) (rate delta : R) :
  0 <= rate -> 0 <= delta ->
  norm3 (sub3 (approach3 c t rate delta) c)
  <= rate * delta * norm3 (sub3 t c).
Proof.
  intros Hr Hd. rewrite approach3_step by exact Hr.
  rewrite (Rabs_pos_eq delta Hd). apply Rle_refl.
Qed.

Lemma ornamentRate_nonneg (appState : AppState) : 0 <= ornamentRate appState.
Proof. destruct appState; simpl; lra. Qed.

Section Photo.

Variable atan2 : R -> R -> R.
Variable lookAt : Vec3 -> Vec3 -> Vec3.

(** C7, as the code has it.  Position and scale of every ornament and
    every photo, and the rotation of every photo but the selected one in
    ZOOM, move by [current += (target - current) * rate * deltaTime]: the
    ornaments at position rate 3 in TREE and 2 in SCATTER and ZOOM, the
    photos at position rate 3 in every mode, scale at its own rate, 3 for
    ornaments and 4 for photos, in every mode.  The rotation of an
    ornament is set to its spin rate times the elapsed time, that of the
    selected photo in ZOOM by [lookAt].  The change of position in one
    frame is [rate * |deltaTime|] times the distance to the target, and
    so never more than [rate * deltaTime] times it. *)
Theorem animator_interpolation :
  (forall (appState : AppState) (time delta : R) (d : ParticleData) (s : Slot),
     let s' := fst (ornamentStep appState time delta d s) in
     let inst := snd (ornamentStep appState time delta d s) in
     let target := ornamentTarget appState time d in
     slotPosition s'
     = approach3 (slotPosition s) target (ornamentRate appState) delta /\
     bscale s'
     = approach (bscale s) (ornamentTargetScale appState d) 3 delta /\
     inst_position inst = slotPosition s' /\
     inst_scale inst = bscale s' /\
     inst_rotation inst
     = mkVec3 (vx (rotationSpeed d) * time) (vy (rotationSpeed d) * time) 0 /\
     norm3 (sub3 (slotPosition s') (slotPosition s))
     = ornamentRate appState * Rabs delta
       * norm3 (sub3 target (slotPosition s)) /\
     (0 <= delta ->
      norm3 (sub3 (slotPosition s') (slotPosition s))
      <= ornamentRate appState * delta
         * norm3 (sub3 target (slotPosition s)))) /\
  (ornamentRate TREE = 3 /\ ornamentRate SCATTER = 2 /\ ornamentRate ZOOM = 2) /\
  (forall (data : ParticleData) (appState : AppState) (isSelected : bool)
          (time delta : R) (cameraPosition : Vec3) (m : Mesh),
     let m' := photoFrame atan2 lookAt data appState isSelected time delta
                          cameraPosition m in
     let t := photoTarget atan2 data appState isSelected time m in
     mesh_position m' = approach3 (mesh_position m) (targetPos t) 3 delta /\
     mesh_scale m' = approach (mesh_scale m) (targetScale t) 4 delta /\
     mesh_rotation m'
     = (if AppState_eqb appState ZOOM && isSelected
        then lookAt (mesh_position m') cameraPosition
        else approach3 (mesh_rotation m) (targetRot t) 3 delta) /\
     norm3 (sub3 (mesh_position m') (mesh_position m))
     = 3 * Rabs delta * norm3 (sub3 (targetPos t) (mesh_position m)) /\
     (0 <= delta ->
      norm3 (sub3 (mesh_position m') (mesh_position m))
      <= 3 * delta * norm3 (sub3 (targetPos t) (mesh_position m)))).
Proof.
  split; [| split].
  - intros appState time delta d s. cbv zeta.
    assert (Hpos : slotPosition (fst (ornamentStep appState time delta d s))
                   = approach3 (slotPosition s)
                               (ornamentTarget appState time d)
                               (ornamentRate appState) delta).
    { unfold ornamentStep, slotPosition, approach3. simpl.
      rewrite lerpSpeed_rate, !lerp_approach. reflexivity. }
    split; [exact Hpos |].
    split; [unfold ornamentStep; simpl; apply lerp_approach' |].
    split; [reflexivity |]. split; [reflexivity |]. split; [reflexivity |].
    rewrite Hpos. split.
    + apply approach3_step, ornamentRate_nonneg.
    + intros Hd. apply approach3_bound; [apply ornamentRate_nonneg | exact Hd].
  - repeat split.
  - intros data appState isSelected time delta cameraPosition m. cbv zeta.
    assert (Hpos : mesh_position
                     (photoFrame atan2 lookAt data appState isSelected time
                                 delta cameraPosition m)
                   = approach3 (mesh_position m)
                       (targetPos (photoTarget atan2 data appState isSelected
                                               time m)) 3 delta).
    { unfold photoFrame. simpl. apply Vector3_lerp_approach. }
    split; [exact Hpos |].
    split; [unfold photoFrame; simpl; apply lerp_approach' |].
    split.
    + unfold photoFrame. cbn [mesh_rotation mesh_position].
      destruct (AppState_eqb appState ZOOM && isSelected).
      * rewrite Vector3_lerp_approach. reflexivity.
      * unfold approach3. rewrite !lerp_approach'. reflexivity.
    + rewrite Hpos. split.
      * apply approach3_step. lra.
      * intros Hd. apply approach3_bound; [lra | exact Hd].
Qed.

End Photo.

(** A sphere at the origin called to its tree anchor for a tenth of a
    second. *)
Lemma animator_interpolation_witness :
  let d := mkParticle 0 (mkVec3 0 0 0) (mkVec3 1 2 2) (mkVec3 0 0 0)
                      SPHERE EmptyString 1 None (mkVec3 0 0 0) in
  let s := mkSlot 0 0 0 0.01 in
  norm3 (sub3 (slotPosition (fst (ornamentStep TREE 0 0.1 d s)))
              (slotPosition s))
  <= ornamentRate TREE * 0.1
     * norm3 (sub3 (ornamentTarget TREE 0 d) (slotPosition s)).
Proof.
  cbv zeta.
  apply (proj1 (animator_interpolation (fun _ _ => 0)
                                       (fun _ _ => mkVec3 0 0 0))).
  lra.
Defined.

(** A photo whose tree and scatter anchors coincide moves towards them by
    the same step in TREE and in SCATTER, so its position rate is not
    greater in TREE; and the selected photo in ZOOM takes the rotation
    [lookAt] gives it in one frame, away from the interpolation step. *)
Lemma photo_rate_same_in_all_modes :
  let atan2 := fun _ _ : R => 0 in
  let lookAt := fun _ _ : Vec3 => mkVec3 0 0 0 in
  let p := mkParticle 1000 (mkVec3 0 0 0) (mkVec3 1 0 0) (mkVec3 1 0 0)
                      PHOTO "white" 1 (Some "blob:1"%string)
                      (mkVec3 0 0 0) in
  let m := mkMesh (mkVec3 0 0 0) (mkVec3 1 1 1) 1 0
                  (mkVec3 1 0 0) (mkVec3 1 0 0) in
  let cam := mkVec3 0 0 25 in
  let stepT :=
    vx (mesh_position (photoFrame atan2 lookAt p TREE false 0 0.1 cam m)) in
  let stepS :=
    vx (mesh_position (photoFrame atan2 lookAt p SCATTER false 0 0.1 cam m)) in
  ~ (exists rT rS : R,
       rS < rT /\
       stepT = approach 0 1 rT 0.1 /\ stepS = approach 0 1 rS 0.1) /\
  mesh_rotation (photoFrame atan2 lookAt p ZOOM true 0 0.1 cam m)
  <> approach3 (mesh_rotation m)
               (targetRot (photoTarget atan2 p ZOOM true 0 m)) 3 0.1.
Proof.
  cbv zeta. split.
  - intros (rT & rS & Hlt & HT & HS).
    unfold photoFrame, approach in *. simpl in *. lra.
  - unfold photoFrame, approach3, approach. simpl.
    intros H. injection H as H _ _. lra.
Qed.

End AnimatorProofs.

(* ================================================================= *)
(** ** The pointer selector *)

Module SelectorProofs.
Import Experience.
Local Open Scope R_scope.

Section Selector.

Variable Camera : Type.
Variable project : Camera -> Vec3 -> Vec3.

Local Abbreviation pointerDist := (Experience.pointerDist Camera project).
Local Abbreviation forEach := (Experience.forEach Camera project).
Local Abbreviation selectionFrame := (Experience.selectionFrame Camera project).
Local Abbreviation spec_distance := (Experience.spec_distance Camera project).

(** The distance the loop computes is the one of the specification. *)
Lemma pointerDist_spec (appState : AppState) (camera : Camera)
  (handData : HandTrackingResult) (p : ParticleData) :
  pointerDist appState camera (ndcX handData) (ndcY handData) p
  = spec_distance appState camera (x (position handData))
                  (y (position handData)) p.
Proof.
  unfold Experience.pointerDist, Experience.spec_distance, ndcX, ndcY, anchor.
  destruct appState; simpl; f_equal; ring.
Qed.

(** The loop from a finite minimum on: the minimum only goes down, bounds
    every distance met, and the index moves exactly when a strictly
    smaller distance is met, to the first particle that attains the new
    minimum. *)
Lemma forEach_from (appState : AppState) (camera : Camera) (nx ny : R)
  (l : list ParticleData) :
  forall (i : nat) (m : R) (c : Z),
    exists (m' : R) (c' : Z),
      forEach appState camera nx ny l i (Some m, c) = (Some m', c') /\
      m' <= m /\
      (forall q, In q l -> m' <= pointerDist appState camera nx ny q) /\
      ((m' = m /\ c' = c) \/
       (m' < m /\
        exists k p,
          c' = Z.of_nat (i + k) /\ nth_error l k = Some p /\
          pointerDist appState camera nx ny p = m' /\
          forall j q, (j < k)%nat -> nth_error l j = Some q ->
                      m' < pointerDist appState camera nx ny q)).
Proof.
  induction l as [| p l IH]; intros i m c.
  - exists m, c. simpl. repeat split; try lra; [intros q [] | now left].
  - cbn [Experience.forEach fst below].
    set (d := pointerDist appState camera nx ny p).
    destruct (Rlt_dec d m) as [Hlt | Hge].
    + rewrite (proj2 (num_ltb_true d m) Hlt).
      destruct (IH (S i) d (Z.of_nat i)) as (m' & c' & E & Hle & Hall & Hc).
      exists m', c'. split; [exact E |]. split; [lra |]. split.
      * intros q [<- | Hq]; [exact Hle | now apply Hall].
      * right. split; [lra |].
        destruct Hc as [[-> ->] | (Hlt' & k & q & -> & Hn & Hd & Hfirst)].
        -- exists 0%nat, p. rewrite Nat.add_0_r.
           repeat split; try reflexivity. intros j q Hj. lia.
        -- exists (S k), q. repeat split.
           ++ f_equal. lia.
           ++ exact Hn.
           ++ exact Hd.
           ++ intros j q' Hj Hq'. destruct j as [| j].
              ** simpl in Hq'. injection Hq' as <-. exact Hlt'.
              ** apply (Hfirst j); [lia | exact Hq'].
    + rewrite (proj2 (num_ltb_false d m)) by lra.
      destruct (IH (S i) m c) as (m' & c' & E & Hle & Hall & Hc).
      exists m', c'. split; [exact E |]. split; [exact Hle |]. split.
      * intros q [<- | Hq]; [fold d; lra | now apply Hall].
      * destruct Hc as [Hsame | (Hlt' & k & q & -> & Hn & Hd & Hfirst)];
          [now left | right].
        split; [exact Hlt' |].
        exists (S k), q. repeat split.
        -- f_equal. lia.
        -- exact Hn.
        -- exact Hd.
        -- intros j q' Hj Hq'. destruct j as [| j].
           ++ simpl in Hq'. injection Hq' as <-. fold d. lra.
           ++ apply (Hfirst j); [lia | exact Hq'].
Qed.

(** The whole loop over a non-empty list, from [Infinity] and [-1]: it
    ends on the least distance and the first index that attains it. *)
Lemma forEach_first_min (appState : AppState) (camera : Camera) (nx ny : R)
  (l : list ParticleData) :
  l <> [] ->
  exists k p,
    nth_error l k = Some p /\
    forEach appState camera nx ny l 0 (None, (-1)%Z)
    = (Some (pointerDist appState camera nx ny p), Z.of_nat k) /\
    (forall q, In q l ->
               pointerDist appState camera nx ny p
               <= pointerDist appState camera nx ny q) /\
    (forall j q, (j < k)%nat -> nth_error l j = Some q ->
                 pointerDist appState camera nx ny p
                 < pointerDist appState camera nx ny q).
Proof.
  destruct l as [| p0 l]; [congruence | intros _].
  cbn [Experience.forEach fst below].
  destruct (forEach_from appState camera nx ny l 1
                         (pointerDist appState camera nx ny p0)
                         (Z.of_nat 0))
    as (m' & c' & E & Hle & Hall & Hc).
  destruct Hc as [[-> ->] | (Hlt & k & q & -> & Hn & Hd & Hfirst)].
  - exists 0%nat, p0. split; [reflexivity |]. split; [exact E |]. split.
    + intros q [<- | Hq]; [lra | now apply Hall].
    + intros j q Hj. lia.
  - exists (S k), q. split; [exact Hn |]. split.
    + rewrite E, Hd. reflexivity.
    + rewrite Hd. split.
      * intros q' [<- | Hq']; [lra | now apply Hall].
      * intros j q' Hj Hq'. destruct j as [| j].
        -- simpl in Hq'. injection Hq' as <-. exact Hlt.
        -- apply (Hfirst j); [lia | exact Hq'].
Qed.

Lemma selectionRuns_true (appState : AppState) (handData : HandTrackingResult)
  (photoParticles : list ParticleData) :
  selectionRuns appState handData photoParticles = true <->
  appState <> ZOOM /\ isPresent handData = true /\ photoParticles <> [].
Proof.
  unfold selectionRuns.
  destruct appState, (isPresent handData), photoParticles; simpl;
    split; intros H; try discriminate; try reflexivity;
    try (repeat split; congruence);
    destruct H as (H1 & H2 & H3); congruence.
Qed.

(** C6. On a frame where the selection runs, the pointer is mapped to
    [(2 * px - 1, 1 - 2 * py)], and some photo [p] at index [k] has the
    least projected distance of its mode-relevant anchor to the pointer,
    first among those that attain it; the callback is invoked, with [k],
    when that distance is below 0.4, and not at all otherwise. *)
Theorem selection_nearest (appState : AppState) (camera : Camera)
  (handData : HandTrackingResult) (photoParticles : list ParticleData) :
  selectionRuns appState handData photoParticles = true ->
  let px := x (position handData) in
  let py := y (position handData) in
  let dist := spec_distance appState camera px py in
  ndcX handData = 2 * px - 1 /\
  ndcY handData = 1 - 2 * py /\
  exists k p,
    nth_error photoParticles k = Some p /\
    (forall q, In q photoParticles -> dist p <= dist q) /\
    (forall j q, (j < k)%nat -> nth_error photoParticles j = Some q ->
                 dist p < dist q) /\
    (dist p < 0.4 ->
     selectionFrame appState camera handData photoParticles
     = Some (Z.of_nat k)) /\
    (0.4 <= dist p ->
     selectionFrame appState camera handData photoParticles = None).
Proof.
  intros Hruns. cbv zeta.
  split; [unfold ndcX; ring |]. split; [unfold ndcY; ring |].
  pose proof (proj1 (selectionRuns_true _ _ _) Hruns) as (_ & _ & Hne).
  destruct (forEach_first_min appState camera (ndcX handData)
              (ndcY handData) photoParticles Hne)
    as (k & p & Hn & E & Hmin & Hfirst).
  exists k, p. split; [exact Hn |].
  split; [| split].
  - intros q Hq. rewrite <- !pointerDist_spec. now apply Hmin.
  - intros j q Hj Hq. rewrite <- !pointerDist_spec. now apply (Hfirst j).
  - unfold Experience.selectionFrame. rewrite Hruns, E.
    rewrite <- pointerDist_spec.
    assert (Hk : (Z.of_nat k =? -1)%Z = false) by (apply Z.eqb_neq; lia).
    rewrite Hk. cbn [negb]. rewrite andb_true_r. split; intros H.
    + now rewrite (proj2 (num_ltb_true _ _) H).
    + now rewrite (proj2 (num_ltb_false _ _) H).
Qed.

(** C1, as the code has it.  In ZOOM (FOCUSED) the selection neither runs
    nor reports, for every camera, pointer and photo set.  It runs in
    TREE and in SCATTER alike, exactly when a hand is present and there
    is a photo, and the callback fires only on a frame where it runs. *)
Theorem selection_suspended_in_zoom (camera : Camera)
  (handData : HandTrackingResult) (photoParticles : list ParticleData) :
  selectionRuns ZOOM handData photoParticles = false /\
  selectionFrame ZOOM camera handData photoParticles = None /\
  (forall appState : AppState,
     selectionRuns appState handData photoParticles = true <->
     appState <> ZOOM /\ isPresent handData = true /\ photoParticles <> []) /\
  (forall (appState : AppState) (i : Z),
     selectionFrame appState camera handData photoParticles = Some i ->
     selectionRuns appState handData photoParticles = true /\
     (appState = TREE \/ appState = SCATTER)).
Proof.
  split; [reflexivity |]. split; [reflexivity |].
  split; [intros appState; apply selectionRuns_true |].
  intros appState i H.
  unfold Experience.selectionFrame in H.
  destruct (selectionRuns appState handData photoParticles) eqn:E;
    [| discriminate].
  split; [reflexivity |].
  apply selectionRuns_true in E as (Hz & _).
  destruct appState; [now left | now right | congruence].
Qed.

End Selector.

(** *** Worked frames *)

(** A camera that leaves points where they are. *)
Local Abbreviation flat := (fun (_ : unit) (v : Vec3) => v).

(** A photo scattered at [(ax, ay, 0)]. *)
Local Abbreviation photoAt ax ay :=
  (mkParticle 1000 (mkVec3 0 0 0) (mkVec3 0 0 0) (mkVec3 ax ay 0)
              PHOTO "white" 1 (Some "blob:1"%string) (mkVec3 0 0 0)).

Lemma num_ltb_sqrt (a b : R) :
  0 <= a -> 0 <= b -> num_ltb (sqrt a) (sqrt b) = num_ltb a b.
Proof.
  intros Ha Hb. destruct (Rlt_dec a b) as [Hlt | Hge].
  - rewrite (proj2 (num_ltb_true a b) Hlt).
    apply num_ltb_true, sqrt_lt_1_alt. lra.
  - rewrite (proj2 (num_ltb_false a b)) by lra.
    apply num_ltb_false, sqrt_le_1_alt. lra.
Qed.

Lemma threshold_sqrt : 0.4 = sqrt 0.16.
Proof.
  replace 0.16 with (0.4 * 0.4) by lra.
  rewrite sqrt_square; lra.
Qed.

(** The distance of a photo anchored at [(ax, ay, 0)] under the flat
    camera. *)
Lemma flat_distance (appState : AppState) (hd : HandTrackingResult)
  (p : ParticleData) (c : R) :
  (vx (anchor appState p) - ndcX hd) * (vx (anchor appState p) - ndcX hd)
  + (vy (anchor appState p) - ndcY hd) * (vy (anchor appState p) - ndcY hd)
  = c ->
  pointerDist unit flat appState tt (ndcX hd) (ndcY hd) p = sqrt c.
Proof.
  intros <-. unfold pointerDist, anchor. destruct appState; reflexivity.
Qed.

(** A photo whose tree anchor projects onto the pointer is selected in
    TREE. *)
Lemma tree_frame_selects :
  let hd := mkResult NONE (mkVec2 0.5 0.5) true in
  let p := mkParticle 1000 (mkVec3 0 0 0) (mkVec3 0 0 0) (mkVec3 5 5 0)
                      PHOTO "white" 1 (Some "blob:1"%string)
                      (mkVec3 0 0 0) in
  selectionFrame unit flat TREE tt hd [p] = Some 0%Z.
Proof.
  cbv zeta. unfold selectionFrame.
  cbn [selectionRuns AppState_eqb isPresent negb orb List.length Nat.eqb
       forEach fst below].
  rewrite (flat_distance TREE _ _ 0)
    by (unfold ndcX, ndcY; simpl; lra).
  rewrite sqrt_0, (proj2 (num_ltb_true 0 0.4)) by lra.
  reflexivity.
Qed.

(** In TREE (ASSEMBLED), with a hand present over a photo, the selection
    runs and the callback fires. *)
Lemma selection_fires_in_tree :
  let hd := mkResult NONE (mkVec2 0.5 0.5) true in
  let p := mkParticle 1000 (mkVec3 0 0 0) (mkVec3 0 0 0) (mkVec3 5 5 0)
                      PHOTO "white" 1 (Some "blob:1"%string)
                      (mkVec3 0 0 0) in
  selectionRuns TREE hd [p] = true /\
  selectionFrame unit flat TREE tt hd [p] <> None.
Proof.
  cbv zeta. split; [reflexivity |].
  pose proof tree_frame_selects as H. cbv zeta in H. rewrite H.
  discriminate.
Qed.

Lemma selection_suspended_in_zoom_witness :
  let hd := mkResult NONE (mkVec2 0.5 0.5) true in
  let p := mkParticle 1000 (mkVec3 0 0 0) (mkVec3 0 0 0) (mkVec3 5 5 0)
                      PHOTO "white" 1 (Some "blob:1"%string)
                      (mkVec3 0 0 0) in
  selectionRuns TREE hd [p] = true /\ (TREE = TREE \/ TREE = SCATTER).
Proof.
  cbv zeta.
  apply (proj2 (proj2 (proj2
           (selection_suspended_in_zoom unit flat tt
              (mkResult NONE (mkVec2 0.5 0.5) true)
              [mkParticle 1000 (mkVec3 0 0 0) (mkVec3 0 0 0) (mkVec3 5 5 0)
                          PHOTO "white" 1 (Some "blob:1"%string)
                          (mkVec3 0 0 0)]))) TREE 0%Z).
  exact tree_frame_selects.
Defined.

(** The three photos of the specification's example, scattered at
    [(0, 0)], [(0.5, 0.5)] and [(-1, -1)]. *)
Lemma selection_nearest_witness :
  let l := [photoAt 0 0; photoAt 0.5 0.5; photoAt (-1) (-1)] in
  let hd := mkResult OPEN_PALM (mkVec2 0.525 0.475) true in
  let dist := spec_distance unit flat SCATTER tt 0.525 0.475 in
  exists k p,
    nth_error l k = Some p /\
    (forall q, In q l -> dist p <= dist q) /\
    (forall j q, (j < k)%nat -> nth_error l j = Some q -> dist p < dist q) /\
    (dist p < 0.4 ->
     selectionFrame unit flat SCATTER tt hd l = Some (Z.of_nat k)) /\
    (0.4 <= dist p -> selectionFrame unit flat SCATTER tt hd l = None).
Proof.
  cbv zeta.
  apply (selection_nearest unit flat SCATTER tt
           (mkResult OPEN_PALM (mkVec2 0.525 0.475) true)).
  reflexivity.
Defined.

(** The example of the specification: with the pointer mapped to
    [(0.05, 0.05)] the photo at [(0, 0)] is reported; with the pointer
    mapped to [(2, 2)] none is. *)
Example selection_example :
  let l := [photoAt 0 0; photoAt 0.5 0.5; photoAt (-1) (-1)] in
  selectionFrame unit flat SCATTER tt
                 (mkResult OPEN_PALM (mkVec2 0.525 0.475) true) l
  = Some 0%Z /\
  selectionFrame unit flat SCATTER tt
                 (mkResult OPEN_PALM (mkVec2 1.5 (-0.5)) true) l
  = None.
Proof.
  cbv zeta. split; unfold selectionFrame;
    cbn [selectionRuns AppState_eqb isPresent negb orb List.length Nat.eqb
         forEach fst below].
  - rewrite (flat_distance SCATTER _ (photoAt 0 0) 0.005),
            (flat_distance SCATTER _ (photoAt 0.5 0.5) 0.405),
            (flat_distance SCATTER _ (photoAt (-1) (-1)) 2.205)
      by (unfold ndcX, ndcY; simpl; lra).
    rewrite (num_ltb_sqrt 0.405 0.005) by lra.
    rewrite (proj2 (num_ltb_false 0.405 0.005)) by lra.
    cbn [fst below]. rewrite (num_ltb_sqrt 2.205 0.005) by lra.
    rewrite (proj2 (num_ltb_false 2.205 0.005)) by lra.
    rewrite threshold_sqrt, (num_ltb_sqrt 0.005 0.16) by lra.
    rewrite (proj2 (num_ltb_true 0.005 0.16)) by lra.
    reflexivity.
  - rewrite (flat_distance SCATTER _ (photoAt 0 0) 8),
            (flat_distance SCATTER _ (photoAt 0.5 0.5) 4.5),
            (flat_distance SCATTER _ (photoAt (-1) (-1)) 18)
      by (unfold ndcX, ndcY; simpl; lra).
    rewrite (num_ltb_sqrt 4.5 8) by lra.
    rewrite (proj2 (num_ltb_true 4.5 8)) by lra.
    cbn [fst below]. rewrite (num_ltb_sqrt 18 4.5) by lra.
    rewrite (proj2 (num_ltb_false 18 4.5)) by lra.
    rewrite threshold_sqrt, (num_ltb_sqrt 4.5 0.16) by lra.
    rewrite (proj2 (num_ltb_false 4.5 0.16)) by lra.
    reflexivity.
Qed.

End SelectorProofs.

(* ================================================================= *)
(** ** The stabilizer feeding the mode machine *)

Module PipelineProofs.
Import HandController App.

(** Whatever the stabilizer emits drives the mode machine by the
    transitions of the specification, on an edge and only then. *)
Corollary emitted_drives_machine (refs : Refs) (f : RawFrame) (st : Model) :
  synced st ->
  exists out : HandTrackingResult,
    snd (stabilize refs f) = Normal out /\
    appState (onHandUpdateProxy st out)
    = if HandGesture_eqb (gesture out) (currentGesture st)
      then appState st
      else spec_transition (appState st) (gesture out)
                           (0 <? List.length (photos st))%nat.
Proof.
  intros Hs.
  destruct (StabilizerProofs.stabilize_emits refs f) as (out & Ho & _).
  exists out. split; [exact Ho |].
  destruct (HandGesture_eqb_spec (gesture out) (currentGesture st)) as [E | N].
  - now apply AppProofs.no_edge_no_change.
  - apply AppProofs.edge_transition; [exact Hs | | exact N].
    now apply StabilizerProofs.stabilize_invariant with (st := refs) (f := f).
Qed.

End PipelineProofs.

(* ================================================================= *)
(** * Further properties of the code *)

(** ** The capture loop of the service *)

Module ServiceProofs.
Import HandTracking.
Local Open Scope R_scope.

(** A service that does not run, or has no instance, passes. *)
Lemma begin_off (svc : Service) (now : R) (readyState newId : Z) :
  isRunning svc = false \/ hands svc = None ->
  processFrame_begin svc now readyState newId = (svc, [], false).
Proof.
  intros H. unfold processFrame_begin.
  destruct H as [-> | ->]; [reflexivity |].
  now rewrite orb_true_r.
Qed.

(** A running service with an instance: throttle, send, or ask again. *)
Lemma begin_on (svc : Service) (now : R) (readyState newId : Z) :
  isRunning svc = true -> hands svc <> None ->
  processFrame_begin svc now readyState newId
  = if num_ltb (now - lastProcessTime svc) 33
    then (mkService (hands svc) (Some newId) (stream svc) true
                    (lastProcessTime svc), [RequestAnimationFrame], false)
    else if (2 <=? readyState)%Z then (svc, [Send], true)
    else (mkService (hands svc) (Some newId) (stream svc) true
                    (lastProcessTime svc), [RequestAnimationFrame], false).
Proof.
  intros Hr Hh. unfold processFrame_begin, processFrame_tail.
  rewrite Hr. destruct (hands svc); [| congruence]. reflexivity.
Qed.

(** A pass of [processFrame] starts a send exactly when the service runs
    with a MediaPipe instance, at least 33 ms have gone by since the last
    processed frame and the video has data; it then changes nothing yet.
    A service that runs with an instance never stalls: a pass that starts
    no send asks for the next frame, and so does the continuation after a
    send, resolved or rejected; only a resolved send moves
    [lastProcessTime].  A service that does not run, or has no instance,
    does nothing. *)
Theorem processFrame_gating (svc : Service) (now : R) (readyState newId : Z) :
  let svc' := fst (fst (processFrame_begin svc now readyState newId)) in
  let effects := snd (fst (processFrame_begin svc now readyState newId)) in
  let awaiting := snd (processFrame_begin svc now readyState newId) in
  (awaiting = true <->
   isRunning svc = true /\ hands svc <> None /\
   33 <= now - lastProcessTime svc /\ (2 <= readyState)%Z) /\
  (awaiting = true -> effects = [Send] /\ svc' = svc) /\
  (isRunning svc = true -> hands svc <> None -> awaiting = false ->
   effects = [RequestAnimationFrame] /\
   animationFrameId svc' = Some newId /\ isRunning svc' = true) /\
  (isRunning svc = false \/ hands svc = None ->
   svc' = svc /\ effects = [] /\ awaiting = false) /\
  lastProcessTime svc' = lastProcessTime svc /\
  (forall (sent : bool) (now' : R),
     isRunning svc = true ->
     snd (processFrame_resume svc sent now' newId) = [RequestAnimationFrame] /\
     animationFrameId (fst (processFrame_resume svc sent now' newId))
     = Some newId /\
     lastProcessTime (fst (processFrame_resume svc sent now' newId))
     = if sent then now' else lastProcessTime svc).
Proof.
  cbv zeta.
  assert (Hres : forall (sent : bool) (now' : R),
     isRunning svc = true ->
     snd (processFrame_resume svc sent now' newId) = [RequestAnimationFrame] /\
     animationFrameId (fst (processFrame_resume svc sent now' newId))
     = Some newId /\
     lastProcessTime (fst (processFrame_resume svc sent now' newId))
     = if sent then now' else lastProcessTime svc).
  { intros sent now' Hr. unfold processFrame_resume, processFrame_tail.
    destruct sent; cbn [isRunning]; rewrite Hr; repeat split. }
  destruct (isRunning svc) eqn:Hr; [destruct (hands svc) as [h |] eqn:Hh |].
  - rewrite begin_on by congruence.
    destruct (Rlt_dec (now - lastProcessTime svc) 33) as [Hlt | Hge].
    + rewrite (proj2 (num_ltb_true _ _) Hlt). cbn [fst snd].
      split; [split; [discriminate | intros (_ & _ & H & _); lra] |].
      split; [discriminate |].
      split; [intros _ _ _; repeat split |].
      split; [intros [H | H]; discriminate |].
      split; [reflexivity | exact Hres].
    + rewrite (proj2 (num_ltb_false _ _)) by lra.
      destruct (Z.leb_spec 2 readyState) as [Hrs | Hrs]; cbn [fst snd].
      * split; [split; [intros _; repeat split; [discriminate | lra | exact Hrs]
                       | reflexivity] |].
        split; [intros _; split; reflexivity |].
        split; [discriminate |].
        split; [intros [H | H]; discriminate |].
        split; [reflexivity | exact Hres].
      * split; [split; [discriminate | intros (_ & _ & _ & H); lia] |].
        split; [discriminate |].
        split; [intros _ _ _; repeat split |].
        split; [intros [H | H]; discriminate |].
        split; [reflexivity | exact Hres].
  - rewrite begin_off by (now right). cbn [fst snd].
    split; [split; [discriminate | intros (_ & H & _); congruence] |].
    split; [discriminate |].
    split; [congruence |].
    split; [intros _; repeat split | split; [reflexivity | exact Hres]].
  - rewrite begin_off by (now left). cbn [fst snd].
    split; [split; [discriminate | intros (H & _); discriminate] |].
    split; [discriminate |].
    split; [discriminate |].
    split; [intros _; repeat split | split; [reflexivity | exact Hres]].
Qed.

(** A running service, 40 ms after its last frame, with video data. *)
Lemma processFrame_gating_witness :
  snd (fst (processFrame_begin
              (mkService (Some (mkHands true)) (Some 7%Z) true true 100)
              140 4 8))
  = [Send].
Proof.
  apply (proj1 (proj2 (processFrame_gating
           (mkService (Some (mkHands true)) (Some 7%Z) true true 100)
           140 4 8))).
  apply (proj1 (processFrame_gating
           (mkService (Some (mkHands true)) (Some 7%Z) true true 100)
           140 4 8)).
  cbn [isRunning hands lastProcessTime].
  repeat split; [discriminate | lra | lia].
Defined.

(** [stop] leaves a service that does not run and holds no stream, and
    keeps the instance.  Stopping again changes nothing more and stops no
    track again, though it cancels the same frame and closes the instance
    once more.  On a stopped service no pass of [processFrame] and no
    continuation of an earlier pass asks for a frame, so the loop ends,
    also when [stop] comes while a send is under way. *)
Theorem stop_halts_loop (svc : Service) :
  let svc' := fst (stop svc) in
  isRunning svc' = false /\
  stream svc' = false /\
  hands svc' = hands svc /\
  fst (stop svc') = svc' /\
  snd (stop svc') = filter (fun e => match e with StopTracks => false | _ => true end)
                           (snd (stop svc)) /\
  (forall (now : R) (readyState newId : Z),
     processFrame_begin svc' now readyState newId = (svc', [], false)) /\
  (forall (sent : bool) (now : R) (newId : Z),
     snd (processFrame_resume svc' sent now newId) = [] /\
     animationFrameId (fst (processFrame_resume svc' sent now newId))
     = animationFrameId svc /\
     isRunning (fst (processFrame_resume svc' sent now newId)) = false).
Proof.
  cbv zeta. destruct svc as [h fid str run last].
  unfold stop. cbn [fst snd isRunning hands lastProcessTime animationFrameId
                    stream].
  split; [reflexivity |]. split; [reflexivity |]. split; [reflexivity |].
  split; [reflexivity |].
  split.
  - destruct fid as [id |]; [destruct (id =? 0)%Z |];
      destruct str; destruct h as [[[|]] |]; reflexivity.
  - split.
    + intros. reflexivity.
    + intros sent now newId. destruct sent; repeat split.
Qed.

End ServiceProofs.

(* ================================================================= *)
(** ** The classifier under a change of scale *)

Module InvarianceProofs.
Import HandTracking ClassifierProofs.
Local Open Scope R_scope.






End InvarianceProofs.

(* ================================================================= *)
(** ** The callback of the controller *)

Module ControllerProofs.
Import HandTracking HandController StabilizerProofs.

(** *** Reading the frame *)

(** With fewer than 21 landmarks, and at least one, the classifier reads
    past the end of the array and throws. *)
Lemma detectGesture_short (lm : list Vec2) :
  (0 < List.length lm < 21)%nat -> detectGesture (Some lm) = Throw.
Proof.
  intros [Hpos Hlt]. unfold detectGesture.
  destruct (Nat.eqb_spec (List.length lm) 0) as [E | _]; [lia |].
  assert (H20 : isFingerFolded lm (nth_error lm 0) 20 18 = Throw).
  { unfold isFingerFolded.
    rewrite (proj2 (nth_error_None lm 20)) by lia. reflexivity. }
  rewrite H20.
  destruct (isFingerFolded lm (nth_error lm 0) 8 6); [| reflexivity].
  destruct (isFingerFolded lm (nth_error lm 0) 12 10); [| reflexivity].
  destruct (isFingerFolded lm (nth_error lm 0) 16 14); reflexivity.
Qed.

(** The callback and the landmark count of the first hand.  Below 21
    landmarks it throws before touching a ref.  From 21 on it emits a
    present result whose position has moved a tenth of the way to the
    mirrored palm centre, landmark 9.  Hands after the first are not
    looked at, and after unmount nothing happens. *)
Theorem onResults_landmark_count (st : Refs) (lm : list Vec2)
  (rest : list (list Vec2)) :
  ((List.length lm < 21)%nat ->
   onResults true st (mkResults (Some (lm :: rest))) = (st, Throw)) /\
  ((21 <= List.length lm)%nat ->
   exists (st' : Refs) (out : HandTrackingResult) (palm : Vec2),
     onResults true st (mkResults (Some (lm :: rest)))
     = (st', Normal (Some out)) /\
     nth_error lm 9 = Some palm /\
     isPresent out = true /\
     position out = prevPositionRef st' /\
     prevPositionRef st'
     = mkVec2 (x (prevPositionRef st)
               + ((1 - x palm) - x (prevPositionRef st)) * 0.1)%R
              (y (prevPositionRef st)
               + (y palm - y (prevPositionRef st)) * 0.1)%R) /\
  onResults true st (mkResults (Some (lm :: rest)))
  = onResults true st (mkResults (Some [lm])) /\
  (forall results : Results, onResults false st results = (st, Normal None)).
Proof.
  split; [| split; [| split; reflexivity]].
  - intros Hlt. unfold onResults, readFrame. cbn [negb multiHandLandmarks].
    destruct lm as [| p lm].
    + reflexivity.
    + rewrite detectGesture_short by (simpl in *; lia). reflexivity.
  - intros Hge. unfold onResults, readFrame. cbn [negb multiHandLandmarks].
    rewrite ClassifierProofs.detectGesture_full by lia.
    cbv beta iota delta [bind].
    destruct (nth_error lm 9) as [palm |] eqn:E9.
    2:{ apply nth_error_None in E9. lia. }
    match goal with
    | |- context [stabilize st ?f] => set (f0 := f)
    end.
    destruct (stabilize_emits st f0) as (out & Ho & _ & Hpos & Hp).
    pose proof (stabilize_position st f0) as Hsm.
    destruct (stabilize st f0) as [st' o]. cbn [fst snd] in *. subst o.
    exists st', out, palm. cbv beta iota delta [bind].
    split; [reflexivity |]. split; [reflexivity |].
    split; [exact Hp |]. split; [exact Hpos |]. exact Hsm.
Qed.

(** A hand of 21 landmarks at the image centre. *)
Lemma onResults_landmark_count_witness :
  exists (st' : Refs) (out : HandTrackingResult) (palm : Vec2),
    onResults true init (mkResults (Some [repeat (mkVec2 0.5 0.5) 21]))
    = (st', Normal (Some out)) /\
    nth_error (repeat (mkVec2 0.5 0.5) 21) 9 = Some palm /\
    isPresent out = true /\
    position out = prevPositionRef st' /\
    prevPositionRef st'
    = mkVec2 (x (prevPositionRef init)
              + ((1 - x palm) - x (prevPositionRef init)) * 0.1)%R
             (y (prevPositionRef init)
              + (y palm - y (prevPositionRef init)) * 0.1)%R.
Proof.
  apply (proj1 (proj2 (onResults_landmark_count
                         init (repeat (mkVec2 0.5 0.5) 21) []))).
  simpl. lia.
Defined.

(** *** The smoothed position stays in the unit square *)

Lemma stabilize_in_square (st : Refs) (f : RawFrame) :
  unit_square (prevPositionRef st) -> raw_in_square f ->
  unit_square (prevPositionRef (fst (stabilize st f))).
Proof.
  intros Hs Hf. rewrite stabilize_position.
  destruct (raw_isPresent f) eqn:Hp; [| exact Hs].
  destruct (Hf Hp) as (Hx & Hy). destruct Hs as (Hsx & Hsy).
  unfold unit_square, smoothingFactor. simpl. lra.
Qed.

(** As long as the raw positions lie in the unit square, so does the
    smoothed position, after every frame of every run, and with it every
    emitted position; the initial position is the centre.  The raw
    position read off a palm in the unit square lies in it, mirrored. *)
Theorem position_stays_in_square (st : Refs) (frames : list RawFrame) :
  unit_square (prevPositionRef st) ->
  Forall raw_in_square frames ->
  unit_square (prevPositionRef (feed st frames)) /\
  (forall (f : RawFrame) (out : HandTrackingResult),
     raw_in_square f ->
     snd (stabilize (feed st frames) f) = Normal out ->
     unit_square (position out)) /\
  unit_square (prevPositionRef init) /\
  (forall (lm : list Vec2) (rest : list (list Vec2)) (palm : Vec2)
          (f : RawFrame),
     nth_error lm 9 = Some palm -> unit_square palm ->
     readFrame (mkResults (Some (lm :: rest))) = Normal f ->
     raw_in_square f).
Proof.
  intros Hs Hall.
  assert (Hfeed : unit_square (prevPositionRef (feed st frames))).
  { revert st Hs. induction Hall as [| f fs Hf _ IH]; intros st Hs;
      [exact Hs |].
    rewrite feed_cons. apply IH. now apply stabilize_in_square. }
  split; [exact Hfeed |]. split; [| split].
  - intros f out Hf Ho.
    destruct (stabilize_emits (feed st frames) f) as (out' & Ho' & _ & Hpos & _).
    rewrite Ho in Ho'. injection Ho' as <-. rewrite Hpos.
    now apply stabilize_in_square.
  - unfold unit_square, init. simpl. lra.
  - intros lm rest palm f H9 (Hx & Hy). unfold readFrame.
    cbn [multiHandLandmarks]. rewrite H9.
    destruct (detectGesture (Some lm)) as [g |]; [| discriminate].
    cbv beta iota delta [bind]. intros H. injection H as <-.
    intros _. simpl. lra.
Qed.

(** A hand that wanders along the top edge. *)
Lemma position_stays_in_square_witness :
  unit_square
    (prevPositionRef
       (feed init [present 0 0 FIST; present 1 0 FIST; present 0.3 0 NONE])).
Proof.
  apply (position_stays_in_square init
           [present 0 0 FIST; present 1 0 FIST; present 0.3 0 NONE]).
  - unfold unit_square, init. simpl. lra.
  - repeat constructor; simpl; lra.
Defined.

(** *** Warm-up after the hand comes back *)

Lemma occurrences_le_length (k : HandGesture) (h : list HandGesture) :
  (occurrences k h <= List.length h)%nat.
Proof.
  induction h as [| g h IH]; [apply Nat.le_refl |].
  rewrite occurrences_cons. simpl.
  destruct (HandGesture_eqb k g); lia.
Qed.

Lemma short_history_no_majority (h : list HandGesture) :
  (List.length h < 3)%nat -> no_majority h.
Proof.
  intros Hlen g. pose proof (occurrences_le_length g h). lia.
Qed.

(** After a frame without a hand, or at the start, the next two frames
    with a hand emit NONE whatever they show: a returning hand is not
    believed at once.  If all three of the next frames show the same
    gesture, the third emits it. *)
Theorem presence_gain_needs_three (st : Refs) (f0 f1 f2 f3 : RawFrame) :
  raw_isPresent f0 = false ->
  all_present [f1; f2; f3] ->
  emitted (fst (stabilize st f0)) [f1; f2] = [Some NONE; Some NONE] /\
  emitted init [f1; f2] = [Some NONE; Some NONE] /\
  (raw_gesture f1 = raw_gesture f3 -> raw_gesture f2 = raw_gesture f3 ->
   emitted (fst (stabilize st f0)) [f1; f2; f3]
   = [Some NONE; Some NONE; Some (raw_gesture f3)]).
Proof.
  intros H0 Hall.
  rewrite (stabilize_absent st f0 H0). cbn [fst].
  change (mkRefs (prevPositionRef st) [] NONE)
    with (mkRefs (prevPositionRef st) (gestureHistoryRef init)
                 (lastEmittedGestureRef init)).
  assert (Hgen : forall s : Refs,
            gestureHistoryRef s = [] -> lastEmittedGestureRef s = NONE ->
            emitted s [f1; f2] = [Some NONE; Some NONE] /\
            (raw_gesture f1 = raw_gesture f3 ->
             raw_gesture f2 = raw_gesture f3 ->
             emitted s [f1; f2; f3]
             = [Some NONE; Some NONE; Some (raw_gesture f3)])).
  { intros s Hh Hl.
    inversion Hall as [| ? ? Hp1 Hall1]; subst.
    inversion Hall1 as [| ? ? Hp2 Hall2]; subst.
    inversion Hall2 as [| ? ? Hp3 _]; subst.
    assert (Hlen0 : (List.length (gestureHistoryRef s) <= 5)%nat)
      by (rewrite Hh; simpl; lia).
    destruct (debounce_step s f1 Hp1 Hlen0) as (Hh1 & _ & Hno1).
    rewrite Hh in Hh1. cbn in Hh1.
    set (s1 := fst (stabilize s f1)) in *.
    assert (Hl1 : lastEmittedGestureRef s1 = NONE).
    { rewrite Hno1, Hl; [reflexivity |].
      apply short_history_no_majority. rewrite Hh1. simpl. lia. }
    assert (Hlen1 : (List.length (gestureHistoryRef s1) <= 5)%nat)
      by (rewrite Hh1; simpl; lia).
    destruct (debounce_step s1 f2 Hp2 Hlen1) as (Hh2 & _ & Hno2).
    rewrite Hh1 in Hh2. cbn in Hh2.
    set (s2 := fst (stabilize s1 f2)) in *.
    assert (Hl2 : lastEmittedGestureRef s2 = NONE).
    { rewrite Hno2, Hl1; [reflexivity |].
      apply short_history_no_majority. rewrite Hh2. simpl. lia. }
    split.
    - rewrite !emitted_cons. fold s1. fold s2. rewrite Hl1, Hl2.
      reflexivity.
    - intros E1 E2.
      assert (Hlen2 : (List.length (gestureHistoryRef s2) <= 5)%nat)
        by (rewrite Hh2; simpl; lia).
      destruct (debounce_step s2 f3 Hp3 Hlen2) as (Hh3 & Hmaj3 & _).
      rewrite Hh2, E1, E2 in Hh3. cbn in Hh3.
      rewrite !emitted_cons. fold s1. fold s2. rewrite Hl1, Hl2.
      rewrite (proj1 (Hmaj3 (raw_gesture f3)
                 ltac:(rewrite Hh3; unfold occurrences; simpl;
                       rewrite HandGesture_eqb_refl; simpl; lia))).
      reflexivity. }
  split; [apply Hgen; reflexivity |].
  split; [apply Hgen; reflexivity |].
  apply Hgen; reflexivity.
Qed.

(** A hand lost and found again showing a fist. *)
Lemma presence_gain_needs_three_witness :
  emitted (fst (stabilize init (mkRaw NONE 0.5 0.5 false)))
          [present 0.5 0.5 FIST; present 0.5 0.5 FIST; present 0.5 0.5 FIST]
  = [Some NONE; Some NONE; Some FIST].
Proof.
  apply (presence_gain_needs_three init (mkRaw NONE 0.5 0.5 false)
           (present 0.5 0.5 FIST) (present 0.5 0.5 FIST)
           (present 0.5 0.5 FIST));
    try reflexivity.
  repeat constructor.
Defined.

End ControllerProofs.

(* ================================================================= *)
(** ** The emitted gesture and the history *)

Module HysteresisProofs.
Import HandController StabilizerProofs.

Lemma occurrences_firstn (k : HandGesture) (n : nat) (h : list HandGesture) :
  (occurrences k (firstn n h) <= occurrences k h)%nat.
Proof.
  revert n. induction h as [| g h IH]; intros [| n]; simpl;
    try apply Nat.le_0_l.
  rewrite !occurrences_cons. specialize (IH n). lia.
Qed.

Lemma occurrences_rev (k : HandGesture) (h : list HandGesture) :
  occurrences k (rev h) = occurrences k h.
Proof.
  induction h as [| g h IH]; [reflexivity |].
  simpl. unfold occurrences in *.
  rewrite filter_app, length_app, IH. simpl.
  destruct (HandGesture_eqb k g); simpl; lia.
Qed.

(** Cutting a history down to its last labels loses occurrences only. *)
Lemma occurrences_lastn (k : HandGesture) (n : nat) (h : list HandGesture) :
  (occurrences k (lastn n h) <= occurrences k h)%nat.
Proof.
  unfold lastn. rewrite occurrences_rev, <- (occurrences_rev k h).
  apply occurrences_firstn.
Qed.

Lemma occurrences_snoc_other (k g : HandGesture) (h : list HandGesture) :
  k <> g -> occurrences k (h ++ [g]) = occurrences k h.
Proof.
  intros Hne. unfold occurrences. rewrite filter_app, length_app. simpl.
  rewrite (proj2 (HandGesture_eqb_neq k g) Hne). simpl. lia.
Qed.

(** A history either has a label with the majority or has none. *)
Lemma majority_or_not (h : list HandGesture) :
  (exists m, (3 <= occurrences m h)%nat) \/ no_majority h.
Proof.
  destruct (le_lt_dec 3 (occurrences NONE h)); [left; now exists NONE |].
  destruct (le_lt_dec 3 (occurrences FIST h)); [left; now exists FIST |].
  destruct (le_lt_dec 3 (occurrences OPEN_PALM h));
    [left; now exists OPEN_PALM |].
  destruct (le_lt_dec 3 (occurrences TWO_FINGERS h));
    [left; now exists TWO_FINGERS |].
  right. intros [| | |]; assumption.
Qed.

Lemma coherent_init : coherent init.
Proof.
  split; [simpl; lia |]. intros m H. cbv in H. lia.
Qed.

(** Every frame keeps the refs coherent. *)
Lemma stabilize_coherent (st : Refs) (f : RawFrame) :
  coherent st -> coherent (fst (stabilize st f)).
Proof.
  intros [Hlen Hco].
  destruct (raw_isPresent f) eqn:Hp.
  - destruct (debounce_step st f Hp Hlen) as (Hh & Hmaj & _).
    split; [rewrite Hh; apply lastn_length |].
    intros m Hm. now apply Hmaj.
  - rewrite (stabilize_absent st f Hp). split; [simpl; lia |].
    intros m H. cbv in H. lia.
Qed.

Lemma feed_coherent (frames : list RawFrame) :
  forall st : Refs, coherent st -> coherent (feed st frames).
Proof.
  induction frames as [| f fs IH]; intros st H; [exact H |].
  rewrite feed_cons. apply IH. now apply stabilize_coherent.
Qed.

(** Along every run from the start, a frame with a hand either leaves the
    emitted gesture as it was or switches it to the gesture this very
    frame shows: the output never switches to a gesture other than the
    one in front of the camera, and a single stray frame between equal
    ones is never emitted unless it completes a majority of its own.  A
    frame without a hand emits NONE. *)
Theorem emitted_switches_to_current (frames : list RawFrame) (f : RawFrame) :
  let st := feed init frames in
  let st' := fst (stabilize st f) in
  coherent st /\
  (raw_isPresent f = true ->
   lastEmittedGestureRef st' = lastEmittedGestureRef st \/
   lastEmittedGestureRef st' = raw_gesture f) /\
  (raw_isPresent f = true ->
   lastEmittedGestureRef st' <> lastEmittedGestureRef st ->
   (3 <= occurrences (raw_gesture f) (gestureHistoryRef st'))%nat) /\
  (raw_isPresent f = false -> lastEmittedGestureRef st' = NONE).
Proof.
  cbv zeta.
  pose proof (feed_coherent frames init coherent_init) as Hco.
  set (st := feed init frames) in *.
  split; [exact Hco |].
  destruct Hco as [Hlen Hco].
  assert (Hcase : raw_isPresent f = true ->
            lastEmittedGestureRef (fst (stabilize st f))
            = lastEmittedGestureRef st \/
            (lastEmittedGestureRef (fst (stabilize st f)) = raw_gesture f /\
             (3 <= occurrences (raw_gesture f)
                     (gestureHistoryRef (fst (stabilize st f))))%nat)).
  { intros Hp.
    destruct (debounce_step st f Hp Hlen) as (Hh & Hmaj & Hno).
    destruct (majority_or_not (gestureHistoryRef (fst (stabilize st f))))
      as [[m Hm] | Hnone].
    - destruct (Hmaj m Hm) as [Hlast _].
      destruct (HandGesture_eqb_spec m (raw_gesture f)) as [E | Hne].
      + right. rewrite <- E. split; [exact Hlast | exact Hm].
      + left. rewrite Hlast. symmetry. apply Hco.
        rewrite Hh in Hm.
        pose proof (occurrences_lastn m 5
                      (gestureHistoryRef st ++ [raw_gesture f])) as Hle.
        rewrite (occurrences_snoc_other m (raw_gesture f) _ Hne) in Hle. lia.
    - left. now apply Hno. }
  split; [| split].
  - intros Hp. destruct (Hcase Hp) as [H | [H _]]; [now left | now right].
  - intros Hp Hne. destruct (Hcase Hp) as [H | [_ H]]; [congruence | exact H].
  - intros Hp. now rewrite (stabilize_absent st f Hp).
Qed.

(** Three fists, then one open palm. *)
Lemma emitted_switches_to_current_witness :
  lastEmittedGestureRef
    (fst (stabilize
            (feed init (map (present 0.5 0.5) [FIST; FIST; FIST]))
            (present 0.5 0.5 OPEN_PALM)))
  = lastEmittedGestureRef
      (feed init (map (present 0.5 0.5) [FIST; FIST; FIST])) \/
  lastEmittedGestureRef
    (fst (stabilize
            (feed init (map (present 0.5 0.5) [FIST; FIST; FIST]))
            (present 0.5 0.5 OPEN_PALM)))
  = OPEN_PALM.
Proof.
  apply (proj1 (proj2 (emitted_switches_to_current
                         (map (present 0.5 0.5) [FIST; FIST; FIST])
                         (present 0.5 0.5 OPEN_PALM)))).
  reflexivity.
Defined.

End HysteresisProofs.

(* ================================================================= *)
(** ** What the application state keeps *)

Module AppFrameProofs.
Import App AppProofs.

Lemma eqb_keep (a b : bool) : (if negb (Bool.eqb a b) then b else a) = b.
Proof. destruct a, b; reflexivity. Qed.

(** A capture tick with the result the application saw last changes
    nothing: the tick is idempotent, so a held gesture, however long, has
    no further effect. *)
Theorem tick_idempotent (st : Model) (r : HandTrackingResult) :
  tick (tick st r) r = tick st r.
Proof.
  destruct st as [a ps hp cg idx aref pref hd], r as [g pos pr].
  destruct a, cg, g, hp, pr, aref, pref, ps; reflexivity.
Qed.

(** What the hand callback touches.  It never changes the photo list, the
    selection index or the two state refs; it stores the result and its
    presence flag.  A result without a hand never changes the mode,
    whatever gesture it carries, and neither does a NONE gesture. *)
Theorem onHandUpdateProxy_frame (st : Model) (r : HandTrackingResult) :
  let st' := onHandUpdateProxy st r in
  photos st' = photos st /\
  activePhotoIndex st' = activePhotoIndex st /\
  appStateRef st' = appStateRef st /\
  photosRef st' = photosRef st /\
  handDataRef st' = r /\
  isHandPresent st' = isPresent r /\
  (isPresent r = false -> appState st' = appState st) /\
  (gesture r = NONE -> appState st' = appState st).
Proof.
  cbv zeta. destruct st as [a ps hp cg idx aref pref hd], r as [g pos pr].
  destruct cg, g, hp, pr, aref, pref; cbn;
    repeat split; intros; congruence.
Qed.

(** A lost hand that still carries FIST leaves a scattered scene alone. *)
Lemma onHandUpdateProxy_frame_witness :
  appState (onHandUpdateProxy
              (mkModel SCATTER [] true OPEN_PALM 0 SCATTER []
                       (mkResult OPEN_PALM (mkVec2 0.5 0.5) true))
              (mkResult FIST (mkVec2 0.5 0.5) false))
  = SCATTER.
Proof.
  destruct (onHandUpdateProxy_frame
              (mkModel SCATTER [] true OPEN_PALM 0 SCATTER []
                       (mkResult OPEN_PALM (mkVec2 0.5 0.5) true))
              (mkResult FIST (mkVec2 0.5 0.5) false))
    as (_ & _ & _ & _ & _ & _ & H & _).
  apply H. reflexivity.
Defined.

Lemma onHandUpdateProxy_photos (st : Model) (r : HandTrackingResult) :
  photos (onHandUpdateProxy st r) = photos st.
Proof.
  destruct st as [a ps hp cg idx aref pref hd], r as [g pos pr].
  destruct cg, g, hp, pr, aref, pref; reflexivity.
Qed.

Lemma tick_zoom (st : Model) (r : HandTrackingResult) :
  synced st ->
  appState (tick st r) = ZOOM ->
  appState st = ZOOM \/ (appState st = SCATTER /\ photos st <> []).
Proof.
  intros [Ha Hp]. destruct st as [a ps hp cg idx aref pref hd].
  cbn in Ha, Hp. subst aref pref.
  unfold tick, onHandUpdateProxy, gestureSwitch.
  cbn [setHandDataRef setIsHandPresent currentGesture isHandPresent
       appStateRef photosRef].
  destruct (negb (HandGesture_eqb cg (gesture r)));
    destruct (isPresent r), (gesture r), a; cbn;
    try (intros H; discriminate H); try (intros _; now left);
    destruct ps; cbn; try (intros H; discriminate H);
    intros _; right; split; [reflexivity | discriminate].
Qed.

(** Entering and leaving ZOOM.  With the refs in step, one callback
    brings the mode to ZOOM only from SCATTER, on a two-finger edge of a
    present hand, with a photo loaded; it leaves ZOOM only on a FIST or
    OPEN_PALM edge of a present hand.  TREE is never followed by ZOOM,
    and as long as the photo list is empty no run of capture ticks
    reaches ZOOM. *)
Theorem zoom_entry_and_exit (st : Model) (r : HandTrackingResult) :
  synced st ->
  (appState st <> ZOOM -> appState (onHandUpdateProxy st r) = ZOOM ->
   appState st = SCATTER /\ photos st <> [] /\
   gesture r = TWO_FINGERS /\ isPresent r = true /\
   currentGesture st <> TWO_FINGERS) /\
  (appState st = ZOOM -> appState (onHandUpdateProxy st r) <> ZOOM ->
   (gesture r = FIST \/ gesture r = OPEN_PALM) /\ isPresent r = true /\
   currentGesture st <> gesture r) /\
  (appState st = TREE -> appState (onHandUpdateProxy st r) <> ZOOM) /\
  (forall rs : list HandTrackingResult,
     photos st = [] -> appState st <> ZOOM ->
     appState (run st rs) <> ZOOM /\ photos (run st rs) = []).
Proof.
  intros Hs. split; [| split; [| split]].
  - destruct Hs as [Ha Hp]. destruct st as [a ps hp cg idx aref pref hd].
    cbn in Ha, Hp. subst aref pref. cbn [appState photos currentGesture].
    unfold onHandUpdateProxy, gestureSwitch.
    cbn [setHandDataRef setIsHandPresent currentGesture isHandPresent
         appStateRef photosRef].
    destruct (HandGesture_eqb_spec cg (gesture r)) as [E | N]; cbn [negb].
    + cbn. congruence.
    + destruct (isPresent r), (gesture r), a; cbn; try congruence;
        destruct ps; cbn; try congruence.
      intros _ _. repeat split; congruence.
  - destruct Hs as [Ha Hp]. destruct st as [a ps hp cg idx aref pref hd].
    cbn in Ha, Hp. subst aref pref. cbn [appState photos currentGesture].
    unfold onHandUpdateProxy, gestureSwitch.
    cbn [setHandDataRef setIsHandPresent currentGesture isHandPresent
         appStateRef photosRef].
    intros ->.
    destruct (HandGesture_eqb_spec cg (gesture r)) as [E | N]; cbn [negb].
    + cbn. congruence.
    + destruct (isPresent r), (gesture r) eqn:Hg; cbn; try congruence;
        intros _; repeat split; try congruence; tauto.
  - intros Ht Hz.
    assert (H : appState (tick st r) = ZOOM) by exact Hz.
    destruct (tick_zoom st r Hs H) as [H1 | [H1 _]]; congruence.
  - intros rs. revert st Hs.
    induction rs as [| r0 rs IH]; intros st Hs Hp Hz; [split; assumption |].
    cbn [run fold_left]. apply IH.
    + apply tick_synced.
    + unfold tick. cbn.
      rewrite onHandUpdateProxy_photos. exact Hp.
    + intros H. destruct (tick_zoom st r0 Hs H) as [H1 | [_ H1]];
        congruence.
Qed.

(** Two fingers shown over an empty photo list. *)
Lemma zoom_entry_and_exit_witness :
  appState (run init [mkResult OPEN_PALM (mkVec2 0.5 0.5) true;
                      mkResult TWO_FINGERS (mkVec2 0.5 0.5) true]) <> ZOOM.
Proof.
  apply (proj2 (proj2 (proj2 (zoom_entry_and_exit init
           (mkResult NONE (mkVec2 0.5 0.5) false)
           (conj eq_refl eq_refl))))).
  - reflexivity.
  - discriminate.
Defined.

(** The photo list.  An upload appends the new URLs after the ones
    loaded, in order, and two uploads add up; an empty upload does
    nothing.  Uploading touches neither the mode nor the selection
    index, so the selection keeps pointing at the same photo.  Clear-all
    undoes every upload, and an upload after it starts a list of its
    own. *)
Theorem photo_list_algebra (st : Model) (a b : list string) :
  photos (handlePhotoUpload st a) = photos st ++ a /\
  photos (handlePhotoUpload (handlePhotoUpload st a) b)
  = photos st ++ a ++ b /\
  handlePhotoUpload st [] = st /\
  appState (handlePhotoUpload st a) = appState st /\
  activePhotoIndex (handlePhotoUpload st a) = activePhotoIndex st /\
  (forall k url, nth_error (photos st) k = Some url ->
                 nth_error (photos (handlePhotoUpload st a)) k = Some url) /\
  clearPhotos (handlePhotoUpload st a) = clearPhotos st /\
  photos (handlePhotoUpload (clearPhotos st) a) = a.
Proof.
  assert (Hup : forall (s : Model) (l : list string),
            photos (handlePhotoUpload s l) = photos s ++ l).
  { intros s l. unfold handlePhotoUpload.
    destruct l; cbn; [now rewrite app_nil_r | reflexivity]. }
  split; [apply Hup |].
  split; [now rewrite !Hup, app_assoc |].
  split; [reflexivity |].
  split; [unfold handlePhotoUpload; destruct a; reflexivity |].
  split; [unfold handlePhotoUpload; destruct a; reflexivity |].
  split.
  - intros k url Hk. rewrite Hup. rewrite nth_error_app1; [exact Hk |].
    apply nth_error_Some. congruence.
  - split.
    + unfold handlePhotoUpload. destruct a; reflexivity.
    + rewrite Hup. reflexivity.
Qed.

(** A second photo joins the first. *)
Lemma photo_list_algebra_witness :
  nth_error (photos (handlePhotoUpload
                       (handlePhotoUpload init ["blob:1"%string])
                       ["blob:2"%string])) 0
  = Some "blob:1"%string.
Proof.
  destruct (photo_list_algebra (handlePhotoUpload init ["blob:1"%string])
                               ["blob:2"%string] [])
    as (_ & _ & _ & _ & _ & H & _).
  apply H. reflexivity.
Defined.

End AppFrameProofs.

(* ================================================================= *)
(** ** shuffle *)

Module ShuffleProofs.
Import Experience.

Lemma update_length {A : Type} (arr : list A) (i : nat) (v : A) :
  List.length (update arr i v) = List.length arr.
Proof.
  revert i. induction arr as [| a arr IH]; intros [| i]; simpl;
    try reflexivity.
  now rewrite IH.
Qed.

(** Writing [a] where [b] stood trades one for the other. *)
Lemma update_trade {A : Type} (arr : list A) (j : nat) (a b : A) :
  nth_error arr j = Some b ->
  Permutation (a :: arr) (b :: update arr j a).
Proof.
  revert j. induction arr as [| c arr IH]; intros [| j] H; simpl in *;
    try discriminate.
  - injection H as ->. apply perm_swap.
  - apply perm_trans with (c :: a :: arr); [apply perm_swap |].
    apply perm_trans with (c :: b :: update arr j a);
      [apply perm_skip, IH, H | apply perm_swap].
Qed.

Lemma swap_defined {A : Type} (arr : list A) (i j : nat) (a b : A) :
  nth_error arr i = Some a -> nth_error arr j = Some b ->
  Permutation (update (update arr i b) j a) arr.
Proof.
  revert i j. induction arr as [| c arr IH]; intros [| i] [| j] Hi Hj;
    simpl in *; try discriminate.
  - injection Hi as ->. reflexivity.
  - injection Hi as ->. symmetry. now apply update_trade.
  - injection Hj as ->. symmetry. now apply update_trade.
  - apply perm_skip. now apply IH.
Qed.

Lemma swap_perm {A : Type} (arr : list A) (i j : nat) :
  Permutation (swap arr i j) arr.
Proof.
  unfold swap.
  destruct (nth_error arr i) as [a |] eqn:Hi; [| reflexivity].
  destruct (nth_error arr j) as [b |] eqn:Hj; [| reflexivity].
  now apply swap_defined.
Qed.

Lemma shuffle_loop_perm {A : Type} (rand : Random) (i : nat) :
  forall (call : nat) (arr : list A),
    Permutation (shuffle_loop rand call i arr) arr.
Proof.
  induction i as [| i IH]; intros call arr; [reflexivity |].
  cbn [shuffle_loop].
  eapply perm_trans; [apply IH | apply swap_perm].
Qed.

(** [Math.floor(Math.random() * (i + 1))] is one of 0, ..., [i]. *)
Lemma randomIndex_le (d : Draw) (i : nat) : (randomIndex d i <= i)%nat.
Proof.
  unfold randomIndex, floor.
  pose proof (value_range d) as [H0 H1].
  pose proof (Zfloor_bound (value d * INR (i + 1))) as [Hlo Hhi].
  assert (Hpos : (0 < INR (i + 1))%R) by (apply lt_0_INR; lia).
  assert (Hlt : (IZR (Zfloor (value d * INR (i + 1))) < INR (i + 1))%R).
  { apply Rle_lt_trans with (value d * INR (i + 1))%R; [exact Hlo |].
    rewrite <- (Rmult_1_l (INR (i + 1))) at 2.
    now apply Rmult_lt_compat_r. }
  set (z := Zfloor (value d * INR (i + 1))) in *.
  rewrite INR_IZR_INZ in Hlt. apply lt_IZR in Hlt. lia.
Qed.

(** Every swap of the loop takes two elements of the array: the source's
    destructuring assignment never reads or writes past its end. *)
Lemma swap_in_range {A : Type} (arr : list A) (d : Draw) (i : nat) :
  (i < List.length arr)%nat ->
  exists a b,
    nth_error arr i = Some a /\ nth_error arr (randomIndex d i) = Some b /\
    swap arr i (randomIndex d i)
    = update (update arr i b) (randomIndex d i) a.
Proof.
  intros Hi. pose proof (randomIndex_le d i) as Hj.
  destruct (nth_error arr i) as [a |] eqn:Ea;
    [| apply nth_error_None in Ea; lia].
  destruct (nth_error arr (randomIndex d i)) as [b |] eqn:Eb;
    [| apply nth_error_None in Eb; lia].
  exists a, b. unfold swap. now rewrite Ea, Eb.
Qed.

(** [shuffle] returns a rearrangement of its argument, whatever
    [Math.random()] yields: the same elements, each as often as before,
    in a list of the same length.  The index it draws for position [i]
    is at most [i].  An empty or one-element array comes back as it
    is. *)
Theorem shuffle_permutation {A : Type} (rand : Random) (array : list A) :
  Permutation (shuffle rand array) array /\
  List.length (shuffle rand array) = List.length array /\
  (forall a : A, In a (shuffle rand array) <-> In a array) /\
  (forall (d : Draw) (i : nat), (randomIndex d i <= i)%nat) /\
  ((List.length array <= 1)%nat -> shuffle rand array = array).
Proof.
  assert (Hp : Permutation (shuffle rand array) array)
    by apply shuffle_loop_perm.
  split; [exact Hp |].
  split; [now apply Permutation_length |].
  split.
  - intros a. split; apply Permutation_in; [exact Hp | now symmetry].
  - split; [apply randomIndex_le |].
    intros Hlen. unfold shuffle.
    destruct array as [| a [| b array]]; simpl in *; [reflexivity .. | lia].
Qed.

Lemma shuffle_permutation_witness :
  shuffle (fun _ => mkDraw 0 (conj (Rle_refl 0) Rlt_0_1)) [TREE] = [TREE].
Proof.
  apply (shuffle_permutation
           (fun _ => mkDraw 0 (conj (Rle_refl 0) Rlt_0_1)) [TREE]).
  simpl. lia.
Defined.

End ShuffleProofs.

(* ================================================================= *)
(** ** The ornaments of the scene *)

Module SceneProofs.
Import Experience ShuffleProofs.
Local Open Scope R_scope.

(** *** Helpers on indexed maps and draws *)

Lemma map_from_length {A B : Type} (f : A -> nat -> B) (arr : list A) :
  forall k : nat, List.length (map_from f arr k) = List.length arr.
Proof.
  induction arr as [| a arr IH]; intros k; simpl; [reflexivity |].
  now rewrite IH.
Qed.

Lemma nth_error_map_from {A B : Type} (f : A -> nat -> B) (arr : list A) :
  forall (k i : nat),
    nth_error (map_from f arr k) i
    = option_map (fun a => f a (k + i)%nat) (nth_error arr i).
Proof.
  induction arr as [| a arr IH]; intros k [| i]; simpl; try reflexivity.
  - now rewrite Nat.add_0_r.
  - rewrite IH. now rewrite Nat.add_succ_r.
Qed.

Lemma map_from_index {A B : Type} (g : nat -> B) (arr : list A) :
  forall k : nat,
    map_from (fun _ i => g i) arr k = map g (seq k (List.length arr)).
Proof.
  induction arr as [| a arr IH]; intros k; simpl; [reflexivity |].
  now rewrite IH.
Qed.

Lemma draw_sqrt (d : Draw) : 0 <= sqrt (value d) < 1.
Proof.
  pose proof (value_range d) as [H0 H1]. split; [apply sqrt_pos |].
  rewrite <- sqrt_1. apply sqrt_lt_1_alt. lra.
Qed.

Lemma on_circle (r a : R) :
  (r * cos a) * (r * cos a) + (r * sin a) * (r * sin a) = r * r.
Proof.
  pose proof (sin2_cos2 a) as H. unfold Rsqr in H.
  replace ((r * cos a) * (r * cos a) + (r * sin a) * (r * sin a))
    with (r * r * (sin a * sin a + cos a * cos a)) by ring.
  rewrite H. ring.
Qed.

Lemma INR_ratio (i n : nat) : (i < n)%nat -> 0 <= INR i / INR n < 1.
Proof.
  intros Hlt.
  assert (Hn : 0 < INR n) by (apply lt_0_INR; lia).
  assert (Hi : 0 <= INR i) by apply pos_INR.
  assert (Hin : INR i < INR n) by now apply lt_INR.
  split.
  - apply Rmult_le_pos; [exact Hi | left; now apply Rinv_0_lt_compat].
  - apply (Rmult_lt_reg_r (INR n)); [exact Hn |].
    unfold Rdiv. rewrite Rmult_assoc, Rinv_l by lra. lra.
Qed.

(** *** The ornaments *)

Lemma nth_error_particles (rand : Random) (i : nat) (p : ParticleData) :
  nth_error (particles rand) i = Some p ->
  (i < CONFIG.PARTICLE_COUNT)%nat /\
  p = particleAt rand CONFIG.PARTICLE_COUNT i.
Proof.
  unfold particles. intros H. rewrite nth_error_map in H.
  destruct (nth_error (seq 0 CONFIG.PARTICLE_COUNT) i) as [k |] eqn:E;
    [| discriminate].
  simpl in H. injection H as <-.
  assert (Hi : (i < CONFIG.PARTICLE_COUNT)%nat).
  { rewrite <- (length_seq CONFIG.PARTICLE_COUNT 0).
    apply nth_error_Some. congruence. }
  split; [exact Hi |].
  apply (nth_error_nth _ _ 0%nat) in E.
  rewrite seq_nth in E by exact Hi. simpl in E. now subst k.
Qed.

Lemma particles_length (rand : Random) :
  List.length (particles rand) = 400%nat.
Proof. unfold particles. now rewrite length_map, length_seq. Qed.

Lemma particleAt_not_photo (rand : Random) (count i : nat) :
  type (particleAt rand count i) <> PHOTO.
Proof.
  unfold particleAt. cbn [type]. set (k := Z.to_nat _). clearbody k.
  unfold types. destruct k as [| [| [| [| k]]]]; cbn [nth]; discriminate.
Qed.

Lemma particles_not_photo (rand : Random) :
  Forall (fun p => type p <> PHOTO) (particles rand).
Proof.
  apply Forall_forall. intros p Hin.
  apply In_nth_error in Hin as [i Hi].
  apply nth_error_particles in Hi as [_ ->].
  apply particleAt_not_photo.
Qed.

(** The ornaments of the scene, whatever [Math.random()] yields.  There
    are 400 of them, numbered by position, none of them a photo, each of
    a type listed in [types].  Each starts at its scatter anchor.  Its
    tree anchor lies inside the cone of height 15 and base radius 6
    around the vertical axis, its scatter anchor in the box of half-sides
    20, 15 and 20, its scale in the range from 0.1 to 0.4 and its spin
    rates in the range from 0 to 1. *)
Theorem particles_within_bounds (rand : Random) :
  List.length (particles rand) = 400%nat /\
  forall (i : nat) (p : ParticleData),
    nth_error (particles rand) i = Some p ->
    id p = INR i /\
    nth_error types (randomIndex (rand (9 * i + 4)%nat) 2) = Some (type p) /\
    type p <> PHOTO /\
    photoUrl p = None /\
    initialPos p = scatterPos p /\
    - 7.5 <= vy (treePos p) < 7.5 /\
    vx (treePos p) * vx (treePos p) + vz (treePos p) * vz (treePos p)
    <= ((7.5 - vy (treePos p)) / 15 * 6) * ((7.5 - vy (treePos p)) / 15 * 6) /\
    (- 20 <= vx (scatterPos p) < 20 /\ - 15 <= vy (scatterPos p) < 15 /\
     - 20 <= vz (scatterPos p) < 20) /\
    0.1 <= scale p < 0.4 /\
    (0 <= vx (rotationSpeed p) < 1 /\ 0 <= vy (rotationSpeed p) < 1 /\
     0 <= vz (rotationSpeed p) < 1).
Proof.
  split; [apply particles_length |].
  intros i p Hp. apply nth_error_particles in Hp as [Hi ->].
  pose proof (particleAt_not_photo rand 400 i) as Hnp.
  unfold CONFIG.PARTICLE_COUNT in *.
  pose proof (INR_ratio i 400 Hi) as Ht.
  pose proof (draw_sqrt (rand (9 * i + 0)%nat)) as Hs.
  pose proof (value_range (rand (9 * i + 1)%nat)) as H1.
  pose proof (value_range (rand (9 * i + 2)%nat)) as H2.
  pose proof (value_range (rand (9 * i + 3)%nat)) as H3.
  pose proof (value_range (rand (9 * i + 5)%nat)) as H5.
  pose proof (value_range (rand (9 * i + 6)%nat)) as H6.
  pose proof (value_range (rand (9 * i + 7)%nat)) as H7.
  pose proof (value_range (rand (9 * i + 8)%nat)) as H8.
  pose proof (randomIndex_le (rand (9 * i + 4)%nat) 2) as Hk.
  unfold particleAt, CONFIG.TREE_HEIGHT, CONFIG.TREE_RADIUS_BASE,
    CONFIG.SCATTER_RADIUS.
  cbn [id type photoUrl initialPos scatterPos treePos scale rotationSpeed
       vx vy vz].
  set (t := INR i / INR 400) in *. clearbody t.
  split; [reflexivity |].
  assert (Hty : nth_error types (randomIndex (rand (9 * i + 4)%nat) 2)
                = Some (nth (Z.to_nat (floor (value (rand (9 * i + 4)%nat)
                                              * INR (List.length types))))
                            types CYLINDER)).
  { change (Z.to_nat (floor (value (rand (9 * i + 4)%nat)
                             * INR (List.length types))))
      with (randomIndex (rand (9 * i + 4)%nat) 2).
    apply nth_error_nth'. unfold types. cbn [List.length]. lia. }
  split; [exact Hty |].
  split; [exact Hnp |].
  split; [reflexivity |]. split; [reflexivity |].
  split; [lra |].
  split.
  { rewrite on_circle.
    set (s := sqrt (value (rand (9 * i + 0)%nat))) in *.
    replace ((7.5 - (t * 15 - 15 / 2)) / 15 * 6) with ((1 - t) * 6) by lra.
    assert (Hm : 0 <= (1 - t) * 6) by lra.
    assert (Hj : 0 <= (1 - t) * 6 * (0.3 + 0.7 * s) <= (1 - t) * 6) by nra.
    nra. }
  repeat split; lra.
Qed.

(** The first ornament. *)
Lemma particles_within_bounds_witness :
  exists p : ParticleData,
    nth_error (particles (fun _ => mkDraw 0 (conj (Rle_refl 0) Rlt_0_1))) 0
    = Some p /\
    id p = INR 0 /\ 0.1 <= scale p < 0.4.
Proof.
  exists (particleAt (fun _ => mkDraw 0 (conj (Rle_refl 0) Rlt_0_1))
                     CONFIG.PARTICLE_COUNT 0).
  assert (H : nth_error
                (particles (fun _ => mkDraw 0 (conj (Rle_refl 0) Rlt_0_1))) 0
              = Some (particleAt (fun _ => mkDraw 0 (conj (Rle_refl 0) Rlt_0_1))
                                 CONFIG.PARTICLE_COUNT 0))
    by reflexivity.
  split; [exact H |].
  destruct (proj2 (particles_within_bounds
                     (fun _ => mkDraw 0 (conj (Rle_refl 0) Rlt_0_1)))
                  0%nat _ H)
    as (Hid & _ & _ & _ & _ & _ & _ & _ & Hsc & _).
  split; [exact Hid | exact Hsc].
Defined.

(** *** The three instanced meshes *)

Lemma splitByType_filters (l : list ParticleData) :
  forall s c cyl : list ParticleData,
    fold_left pushByType l (s, c, cyl)
    = (s ++ filter (fun p => ParticleType_eqb (type p) SPHERE) l,
       c ++ filter (fun p => ParticleType_eqb (type p) CUBE) l,
       cyl ++ filter (fun p => ParticleType_eqb (type p) CYLINDER) l).
Proof.
  induction l as [| p l IH]; intros s c cyl; simpl.
  - now rewrite !app_nil_r.
  - destruct (type p); simpl; rewrite IH, <- ?app_assoc; reflexivity.
Qed.

(** The split of the ornaments over the three instanced meshes keeps the
    order within each type, and a list without photos is dealt out
    completely: every particle goes to exactly one mesh.  So the three
    meshes of the scene hold its 400 ornaments between them. *)
Theorem splitByType_partition (l : list ParticleData) :
  let spheres := fst (fst (splitByType l)) in
  let cubes := snd (fst (splitByType l)) in
  let cylinders := snd (splitByType l) in
  spheres = filter (fun p => ParticleType_eqb (type p) SPHERE) l /\
  cubes = filter (fun p => ParticleType_eqb (type p) CUBE) l /\
  cylinders = filter (fun p => ParticleType_eqb (type p) CYLINDER) l /\
  (Forall (fun p => type p <> PHOTO) l ->
   Permutation (spheres ++ cubes ++ cylinders) l /\
   (List.length spheres + List.length cubes + List.length cylinders)%nat
   = List.length l) /\
  (forall rand : Random,
     (List.length (fst (fst (splitByType (particles rand))))
      + List.length (snd (fst (splitByType (particles rand))))
      + List.length (snd (splitByType (particles rand))))%nat = 400%nat).
Proof.
  assert (Hperm : forall l : list ParticleData,
            Forall (fun p => type p <> PHOTO) l ->
            Permutation
              (filter (fun p => ParticleType_eqb (type p) SPHERE) l
               ++ filter (fun p => ParticleType_eqb (type p) CUBE) l
               ++ filter (fun p => ParticleType_eqb (type p) CYLINDER) l) l).
  { clear l. intros l Hall. induction Hall as [| p l Hp _ IH]; simpl.
    - constructor.
    - destruct (type p); simpl; try congruence.
      + now apply perm_skip.
      + eapply perm_trans; [symmetry; apply Permutation_middle |].
        now apply perm_skip.
      + rewrite app_assoc.
        eapply perm_trans; [symmetry; apply Permutation_middle |].
        rewrite <- app_assoc. now apply perm_skip. }
  cbv zeta. unfold splitByType. rewrite splitByType_filters. cbn [fst snd app].
  split; [reflexivity |]. split; [reflexivity |]. split; [reflexivity |].
  split.
  - intros Hall. split; [now apply Hperm |].
    rewrite <- (Permutation_length (Hperm l Hall)), !length_app. lia.
  - intros rand. rewrite splitByType_filters. cbn [fst snd app].
    pose proof (Permutation_length (Hperm _ (particles_not_photo rand))) as H.
    rewrite !length_app in H.
    rewrite particles_length in H. lia.
Qed.

(** Two spheres around a cube. *)
Lemma splitByType_partition_witness :
  let mk ty := mkParticle 0 (mkVec3 0 0 0) (mkVec3 0 0 0) (mkVec3 0 0 0)
                          ty EmptyString 1 None (mkVec3 0 0 0) in
  (List.length (fst (fst (splitByType [mk SPHERE; mk CUBE; mk SPHERE])))
   + List.length (snd (fst (splitByType [mk SPHERE; mk CUBE; mk SPHERE])))
   + List.length (snd (splitByType [mk SPHERE; mk CUBE; mk SPHERE])))%nat
  = 3%nat.
Proof.
  cbv zeta.
  destruct (splitByType_partition
              [mkParticle 0 (mkVec3 0 0 0) (mkVec3 0 0 0) (mkVec3 0 0 0)
                          SPHERE EmptyString 1 None (mkVec3 0 0 0);
               mkParticle 0 (mkVec3 0 0 0) (mkVec3 0 0 0) (mkVec3 0 0 0)
                          CUBE EmptyString 1 None (mkVec3 0 0 0);
               mkParticle 0 (mkVec3 0 0 0) (mkVec3 0 0 0) (mkVec3 0 0 0)
                          SPHERE EmptyString 1 None (mkVec3 0 0 0)])
    as (_ & _ & _ & H & _).
  apply H. repeat constructor; discriminate.
Defined.

End SceneProofs.

(* ================================================================= *)
(** ** The photo particles *)

Module PhotoLayoutProofs.
Import Experience ShuffleProofs SceneProofs.
Local Open Scope R_scope.

Lemma scatter_in_box (rand : Random) (call : nat) :
  - 7.5 <= vx (randomScatterPos rand call) < 7.5 /\
  - 7.5 <= vy (randomScatterPos rand call) < 7.5 /\
  - 5 <= vz (randomScatterPos rand call) < 5.
Proof.
  pose proof (value_range (rand call)) as H0.
  pose proof (value_range (rand (call + 1)%nat)) as H1.
  pose proof (value_range (rand (call + 2)%nat)) as H2.
  unfold randomScatterPos. simpl. lra.
Qed.

(** A tree anchor of the photo spiral: its height, and its distance from
    the axis, which shrinks from 8 at the top of the list towards 2. *)
Lemma photoTreePos_on_spiral (n i : nat) :
  (i < n)%nat ->
  - 7.5 < vy (photoTreePos n i) <= 7.5 /\
  vx (photoTreePos n i) * vx (photoTreePos n i)
  + vz (photoTreePos n i) * vz (photoTreePos n i)
  = ((vy (photoTreePos n i) + 7.5) / 15 * 6 + 2)
    * ((vy (photoTreePos n i) + 7.5) / 15 * 6 + 2) /\
  2 < (vy (photoTreePos n i) + 7.5) / 15 * 6 + 2 <= 8.
Proof.
  intros Hi. pose proof (INR_ratio i n Hi) as Ht.
  unfold photoTreePos, CONFIG.TREE_HEIGHT, CONFIG.TREE_RADIUS_BASE.
  cbn [vx vy vz]. set (t := INR i / INR n) in *. clearbody t.
  rewrite on_circle.
  replace (((1 - t) * 15 - 15 / 2 + 7.5) / 15 * 6 + 2)
    with ((1 - t) * 6 + 2.0) by lra.
  repeat split; lra.
Qed.

Lemma INR_400 : INR 400 = 400.
Proof. rewrite INR_IZR_INZ. reflexivity. Qed.

(** The photo particles made for a photo list, whatever [Math.random()]
    yields.  There is one per photo, in order, carrying its URL, numbered
    1000 plus its position, so no two share an id and none shares one
    with an ornament.  Each starts at the origin with scale 1, has its
    tree anchor on the spiral and its scatter anchor in the box of
    half-sides 7.5, 7.5 and 5. *)
Theorem newPhotoParticles_layout (rand : Random) (photos : list string) :
  List.length (newPhotoParticles rand photos) = List.length photos /\
  (forall (i : nat) (url : string),
     nth_error photos i = Some url ->
     exists p : ParticleData,
       nth_error (newPhotoParticles rand photos) i = Some p /\
       id p = INR i + 1000 /\
       photoUrl p = Some url /\
       type p = PHOTO /\
       initialPos p = mkVec3 0 0 0 /\
       scale p = 1 /\
       treePos p = photoTreePos (List.length photos) i /\
       - 7.5 < vy (treePos p) <= 7.5 /\
       (- 7.5 <= vx (scatterPos p) < 7.5 /\ - 7.5 <= vy (scatterPos p) < 7.5 /\
        - 5 <= vz (scatterPos p) < 5)) /\
  NoDup (map id (newPhotoParticles rand photos)) /\
  (forall (rand' : Random) (p q : ParticleData),
     In p (newPhotoParticles rand photos) -> In q (particles rand') ->
     id p <> id q).
Proof.
  assert (Hnth : forall (i : nat) (p : ParticleData),
            nth_error (newPhotoParticles rand photos) i = Some p ->
            exists url, nth_error photos i = Some url /\
              p = mkParticle (INR i + 1000) (mkVec3 0 0 0)
                    (photoTreePos (List.length photos) i)
                    (randomScatterPos rand (3 * i))
                    PHOTO "white" 1 (Some url) (mkVec3 0 0 0)).
  { intros i p H. unfold newPhotoParticles in H.
    rewrite nth_error_map_from in H.
    destruct (nth_error photos i) as [url |]; [| discriminate].
    exists url. simpl in H. injection H as <-. split; reflexivity. }
  split; [apply map_from_length |].
  split; [| split].
  - intros i url Hi.
    assert (Hlt : (i < List.length photos)%nat)
      by (apply nth_error_Some; congruence).
    eexists. split.
    + unfold newPhotoParticles. rewrite nth_error_map_from, Hi. reflexivity.
    + cbn [id photoUrl type initialPos scale treePos scatterPos Nat.add].
      repeat split; try apply scatter_in_box;
        apply (photoTreePos_on_spiral _ _ Hlt).
  - apply NoDup_nth_error. intros i j Hi E.
    rewrite length_map in Hi. rewrite !nth_error_map in E.
    destruct (nth_error (newPhotoParticles rand photos) i) as [p |] eqn:Ep;
      [| apply nth_error_None in Ep; lia].
    destruct (nth_error (newPhotoParticles rand photos) j) as [q |] eqn:Eq;
      [| discriminate].
    apply Hnth in Ep as (u & _ & ->). apply Hnth in Eq as (v & _ & ->).
    simpl in E. injection E as E. apply INR_eq. lra.
  - intros rand' p q Hp Hq.
    apply In_nth_error in Hp as [i Hi]. apply Hnth in Hi as (u & _ & ->).
    apply In_nth_error in Hq as [j Hj].
    pose proof (nth_error_particles rand' j q Hj) as [Hlt ->].
    cbn [id particleAt]. apply lt_INR in Hlt. unfold CONFIG.PARTICLE_COUNT in Hlt.
    rewrite INR_400 in Hlt. pose proof (pos_INR i). lra.
Qed.

Lemma newPhotoParticles_layout_witness :
  exists p : ParticleData,
    nth_error (newPhotoParticles
                 (fun _ => mkDraw 0 (conj (Rle_refl 0) Rlt_0_1))
                 ["blob:1"%string; "blob:2"%string]) 1 = Some p /\
    id p = INR 1 + 1000 /\
    photoUrl p = Some "blob:2"%string /\
    type p = PHOTO /\
    initialPos p = mkVec3 0 0 0 /\
    scale p = 1 /\
    treePos p = photoTreePos 2 1 /\
    - 7.5 < vy (treePos p) <= 7.5 /\
    (- 7.5 <= vx (scatterPos p) < 7.5 /\ - 7.5 <= vy (scatterPos p) < 7.5 /\
     - 5 <= vz (scatterPos p) < 5).
Proof.
  apply (proj1 (proj2 (newPhotoParticles_layout
                         (fun _ => mkDraw 0 (conj (Rle_refl 0) Rlt_0_1))
                         ["blob:1"%string; "blob:2"%string])) 1%nat).
  reflexivity.
Defined.

(** *** Dealing the anchors out afresh *)

Lemma relayout_nth (rand : Random) (appState : AppState)
  (seen prev : list ParticleData) (i : nat) (p : ParticleData) :
  seen <> [] ->
  nth_error prev i = Some p ->
  nth_error (relayout rand appState seen prev) i
  = Some (match appState with
          | TREE =>
            setTreePos p
              (nth i (shuffle rand (map (photoTreePos (List.length prev))
                                        (seq 0 (List.length prev))))
                   (treePos p))
          | SCATTER => setScatterPos p (randomScatterPos rand (3 * i))
          | ZOOM => p
          end).
Proof.
  intros Hne Hi. unfold relayout.
  destruct (Nat.eqb_spec (List.length seen) 0) as [E | _].
  { destruct seen; [congruence | discriminate]. }
  destruct appState; cbn [AppState_eqb].
  - rewrite nth_error_map_from, Hi, map_from_index. reflexivity.
  - rewrite nth_error_map_from, Hi. reflexivity.
  - exact Hi.
Qed.

Lemma relayout_length (rand : Random) (appState : AppState)
  (seen prev : list ParticleData) :
  List.length (relayout rand appState seen prev) = List.length prev.
Proof.
  unfold relayout. destruct (List.length seen =? 0)%nat; [reflexivity |].
  destruct appState; cbn [AppState_eqb];
    rewrite ?map_from_length; reflexivity.
Qed.

Lemma relayout_unseen (rand : Random) (appState : AppState)
  (prev : list ParticleData) :
  relayout rand appState [] prev = prev.
Proof. reflexivity. Qed.

(** The tree anchors after a relayout in TREE are the shuffled list. *)
Lemma relayout_tree_anchors (rand : Random) (seen prev : list ParticleData) :
  seen <> [] ->
  map treePos (relayout rand TREE seen prev)
  = shuffle rand (map (photoTreePos (List.length prev))
                      (seq 0 (List.length prev))).
Proof.
  intros Hne. set (sh := shuffle rand _).
  assert (Hlen : List.length sh = List.length prev).
  { unfold sh, shuffle.
    rewrite (Permutation_length (shuffle_loop_perm rand _ 0 _)).
    now rewrite length_map, length_seq. }
  apply nth_error_ext. intros i. rewrite nth_error_map.
  destruct (nth_error prev i) as [p |] eqn:Ep.
  - rewrite (relayout_nth rand TREE seen prev i p Hne Ep).
    cbn [option_map treePos setTreePos].
    fold sh. symmetry. apply nth_error_nth'.
    rewrite Hlen. apply nth_error_Some. congruence.
  - assert (Hi : (List.length prev <= i)%nat) by now apply nth_error_None.
    rewrite (proj2 (nth_error_None (relayout rand TREE seen prev) i))
      by (rewrite relayout_length; exact Hi).
    symmetry. apply nth_error_None. lia.
Qed.

(** The effect on mode and photo count, run on the list [prev] after a
    render that saw the list [seen].  It keeps the number and order of
    the photo particles and, of each, the id, the URL, the type, the
    scale and the start position.  When the render saw no photo
    particles, as on the first upload, and in ZOOM it changes nothing.
    In TREE it leaves the scatter anchors alone and deals the tree
    anchors of the spiral out afresh, each slot of the spiral to exactly
    one photo.  In SCATTER it leaves the tree anchors alone and draws
    scatter anchors in the box of half-sides 7.5, 7.5 and 5. *)
Theorem relayout_spec (rand : Random) (appState : AppState)
  (seen prev : list ParticleData) :
  List.length (relayout rand appState seen prev) = List.length prev /\
  relayout rand appState [] prev = prev /\
  relayout rand ZOOM seen prev = prev /\
  (forall (i : nat) (p : ParticleData),
     nth_error prev i = Some p ->
     exists p' : ParticleData,
       nth_error (relayout rand appState seen prev) i = Some p' /\
       id p' = id p /\ photoUrl p' = photoUrl p /\ type p' = type p /\
       scale p' = scale p /\ initialPos p' = initialPos p /\
       (appState <> TREE -> treePos p' = treePos p) /\
       (appState <> SCATTER -> scatterPos p' = scatterPos p) /\
       (appState = SCATTER -> seen <> [] ->
        - 7.5 <= vx (scatterPos p') < 7.5 /\
        - 7.5 <= vy (scatterPos p') < 7.5 /\
        - 5 <= vz (scatterPos p') < 5)) /\
  (seen <> [] ->
   Permutation (map treePos (relayout rand TREE seen prev))
               (map (photoTreePos (List.length prev))
                    (seq 0 (List.length prev)))).
Proof.
  split; [apply relayout_length |].
  split; [reflexivity |].
  split.
  { unfold relayout. destruct (List.length seen =? 0)%nat; reflexivity. }
  split.
  - intros i p Hi. destruct seen as [| q seen].
    + exists p. rewrite relayout_unseen.
      repeat split; try assumption; congruence.
    + eexists. split; [apply relayout_nth; [discriminate | exact Hi] |].
      destruct appState; cbn [id photoUrl type scale initialPos treePos
                              scatterPos setTreePos setScatterPos];
        repeat split; try congruence; apply scatter_in_box.
  - intros Hne. rewrite relayout_tree_anchors by exact Hne.
    apply shuffle_loop_perm.
Qed.

(** A second photo has come in while the scene is scattered. *)
Lemma relayout_spec_witness :
  let rand := fun _ : nat => mkDraw 0 (conj (Rle_refl 0) Rlt_0_1) in
  exists p' : ParticleData,
    nth_error
      (relayout rand SCATTER
         (newPhotoParticles rand ["blob:1"%string])
         (newPhotoParticles rand ["blob:1"%string; "blob:2"%string])) 1
    = Some p' /\
    photoUrl p' = Some "blob:2"%string /\
    - 7.5 <= vx (scatterPos p') < 7.5.
Proof.
  cbv zeta.
  destruct (proj1 (proj2 (proj2 (proj2
              (relayout_spec (fun _ => mkDraw 0 (conj (Rle_refl 0) Rlt_0_1))
                 SCATTER
                 (newPhotoParticles
                    (fun _ => mkDraw 0 (conj (Rle_refl 0) Rlt_0_1))
                    ["blob:1"%string])
                 (newPhotoParticles
                    (fun _ => mkDraw 0 (conj (Rle_refl 0) Rlt_0_1))
                    ["blob:1"%string; "blob:2"%string])))))
              1%nat _ eq_refl)
    as (p' & Hn & _ & Hu & _ & _ & _ & _ & _ & Hbox).
  exists p'. split; [exact Hn |]. split; [exact Hu |].
  apply Hbox; [reflexivity | discriminate].
Defined.

End PhotoLayoutProofs.

(* ================================================================= *)
(** ** Settling of the animation *)

Module SettlingProofs.
Import Experience AnimatorProofs.
Local Open Scope R_scope.

Lemma sum_sq_nonneg (a b c : R) : 0 <= a * a + b * b + c * c.
Proof.
  pose proof (Rle_0_sqr a). pose proof (Rle_0_sqr b).
  pose proof (Rle_0_sqr c). unfold Rsqr in *. lra.
Qed.

Lemma norm3_nonneg (v : Vec3) : 0 <= norm3 v.
Proof. apply sqrt_pos. Qed.

(** What is left of the way to the target after one step. *)
Lemma approach3_remaining (c t : Vec3) (rate delta : R) :
  norm3 (sub3 t (approach3 c t rate delta))
  = Rabs (1 - rate * delta) * norm3 (sub3 t c).
Proof.
  unfold norm3, sub3, approach3, approach. cbn [vx vy vz].
  replace ((vx t - (vx c + (vx t - vx c) * rate * delta))
           * (vx t - (vx c + (vx t - vx c) * rate * delta))
           + (vy t - (vy c + (vy t - vy c) * rate * delta))
             * (vy t - (vy c + (vy t - vy c) * rate * delta))
           + (vz t - (vz c + (vz t - vz c) * rate * delta))
             * (vz t - (vz c + (vz t - vz c) * rate * delta)))
    with (Rsqr (1 - rate * delta)
          * ((vx t - vx c) * (vx t - vx c) + (vy t - vy c) * (vy t - vy c)
             + (vz t - vz c) * (vz t - vz c)))
    by (unfold Rsqr; ring).
  rewrite sqrt_mult; [| apply Rle_0_sqr | apply sum_sq_nonneg].
  now rewrite sqrt_Rsqr_abs.
Qed.


Lemma ornament_position_step (appState : AppState) (time delta : R)
  (d : ParticleData) (s : Slot) :
  slotPosition (fst (ornamentStep appState time delta d s))
  = approach3 (slotPosition s) (ornamentTarget appState time d)
              (ornamentRate appState) delta.
Proof.
  unfold ornamentStep, slotPosition, approach3. simpl.
  rewrite lerpSpeed_rate, !lerp_approach. reflexivity.
Qed.


Lemma photo_position_step (atan2 : R -> R -> R) (lookAt : Vec3 -> Vec3 -> Vec3)
  (data : ParticleData) (appState : AppState) (isSelected : bool)
  (time delta : R) (cameraPosition : Vec3) (m : Mesh) :
  mesh_position (photoFrame atan2 lookAt data appState isSelected time delta
                            cameraPosition m)
  = approach3 (mesh_position m)
              (targetPos (photoTarget atan2 data appState isSelected time m))
              3 delta.
Proof. unfold photoFrame. simpl. apply Vector3_lerp_approach. Qed.

Lemma factor_le_1 (k : R) : 0 <= k <= 2 -> Rabs (1 - k) <= 1.
Proof. intros H. apply Rabs_le. lra. Qed.

Lemma factor_ge_1 (k : R) : 2 <= k -> 1 <= Rabs (1 - k).
Proof.
  intros H. rewrite Rabs_left1 by lra. lra.
Qed.

(** How far from its target an object is after a frame.  The distance is
    the distance before, times [|1 - rate * deltaTime|], for an ornament
    with its per-mode rate and for a photo with rate 3.  So a frame with
    [rate * deltaTime] up to 2 never takes an object further from its
    target, one with [rate * deltaTime = 1] puts it on the target, and a
    frame longer than that, as after a stall of the render loop,
    overshoots: from [rate * deltaTime = 2] on the object ends at least
    as far from the target as it started. *)
Theorem frame_contraction (atan2 : R -> R -> R)
  (lookAt : Vec3 -> Vec3 -> Vec3) :
  (forall (appState : AppState) (time delta : R) (d : ParticleData)
          (s : Slot),
     let target := ornamentTarget appState time d in
     let before := norm3 (sub3 target (slotPosition s)) in
     let after :=
       norm3 (sub3 target
                   (slotPosition (fst (ornamentStep appState time delta d s)))) in
     after = Rabs (1 - ornamentRate appState * delta) * before /\
     (0 <= ornamentRate appState * delta <= 2 -> after <= before) /\
     (ornamentRate appState * delta = 1 -> after = 0) /\
     (2 <= ornamentRate appState * delta -> before <= after)) /\
  (forall (data : ParticleData) (appState : AppState) (isSelected : bool)
          (time delta : R) (cameraPosition : Vec3) (m : Mesh),
     let target :=
       targetPos (photoTarget atan2 data appState isSelected time m) in
     let before := norm3 (sub3 target (mesh_position m)) in
     let after :=
       norm3 (sub3 target
                   (mesh_position
                      (photoFrame atan2 lookAt data appState isSelected time
                                  delta cameraPosition m))) in
     after = Rabs (1 - 3 * delta) * before /\
     (0 <= 3 * delta <= 2 -> after <= before) /\
     (3 * delta = 1 -> after = 0) /\
     (2 <= 3 * delta -> before <= after)).
Proof.
  assert (Hgen : forall (c t : Vec3) (rate delta : R),
            let before := norm3 (sub3 t c) in
            let after := norm3 (sub3 t (approach3 c t rate delta)) in
            after = Rabs (1 - rate * delta) * before /\
            (0 <= rate * delta <= 2 -> after <= before) /\
            (rate * delta = 1 -> after = 0) /\
            (2 <= rate * delta -> before <= after)).
  { intros c t rate delta. cbv zeta. rewrite approach3_remaining.
    pose proof (norm3_nonneg (sub3 t c)) as Hn.
    split; [reflexivity |]. split; [| split].
    - intros H. pose proof (factor_le_1 _ H). nra.
    - intros ->. replace (1 - 1) with 0 by ring. rewrite Rabs_R0. ring.
    - intros H. pose proof (factor_ge_1 _ H). nra. }
  split.
  - intros appState time delta d s. cbv zeta.
    rewrite ornament_position_step. apply Hgen.
  - intros data appState isSelected time delta cameraPosition m. cbv zeta.
    rewrite photo_position_step. apply Hgen.
Qed.

(** An ornament one unit from its tree anchor, after a frame of a whole
    second. *)
Lemma frame_contraction_witness :
  let d := mkParticle 0 (mkVec3 0 0 0) (mkVec3 1 0 0) (mkVec3 0 0 0)
                      SPHERE EmptyString 1 None (mkVec3 0 0 0) in
  let s := mkSlot 0 0 0 0.01 in
  norm3 (sub3 (ornamentTarget TREE 0 d) (slotPosition s))
  <= norm3 (sub3 (ornamentTarget TREE 0 d)
                 (slotPosition (fst (ornamentStep TREE 0 1 d s)))).
Proof.
  cbv zeta.
  apply (proj1 (frame_contraction (fun _ _ => 0) (fun _ _ => mkVec3 0 0 0))).
  simpl. lra.
Defined.

(** *** Settling into the tree *)





End SettlingProofs.

(* ================================================================= *)
(** ** The camera *)

Module CameraProofs.
Import Experience SceneProofs.
Local Open Scope R_scope.

Section Rig.

Variable faceOrigin : Vec3 -> Vec3.

(** The camera frame.  In ZOOM the camera is left where it is.  In TREE
    it is put on the circle of radius 25 around the vertical axis, at the
    angle a tenth of the elapsed time, while its height decays towards 0
    by the factor [1 - delta].  In SCATTER it moves at rate 2 towards a
    point of the cylinder of radius 25 whose height is [5 - 10 * py]: a
    pointer in the unit square keeps that point within 5 of the ground
    plane, and a pointer at mid-width puts it straight in front.  In TREE
    and SCATTER the camera is turned to the origin from where it ends
    up. *)
Theorem cameraFrame_spec (handData : HandTrackingResult) (time delta : R)
  (camera : CameraState) :
  cameraFrame faceOrigin ZOOM handData time delta camera = camera /\
  (let cam' := cameraFrame faceOrigin TREE handData time delta camera in
   vx (cam_position cam') * vx (cam_position cam')
   + vz (cam_position cam') * vz (cam_position cam') = 25 * 25 /\
   vy (cam_position cam') = (1 - delta) * vy (cam_position camera) /\
   cam_rotation cam' = faceOrigin (cam_position cam')) /\
  (let cam' := cameraFrame faceOrigin SCATTER handData time delta camera in
   exists desired : Vec3,
     cam_position cam' = approach3 (cam_position camera) desired 2 delta /\
     vx desired * vx desired + vz desired * vz desired = 25 * 25 /\
     vy desired = 5 - 10 * y (position handData) /\
     (0 <= y (position handData) <= 1 -> - 5 <= vy desired <= 5) /\
     (x (position handData) = 0.5 -> vx desired = 0 /\ vz desired = 25) /\
     cam_rotation cam' = faceOrigin (cam_position cam')).
Proof.
  split; [reflexivity |]. split.
  - cbv zeta. unfold cameraFrame, lerp. cbn [AppState_eqb cam_position
      cam_rotation vx vy vz].
    split; [| split; [ring | reflexivity]].
    replace (sin (time * 0.1) * 25 * (sin (time * 0.1) * 25)
             + cos (time * 0.1) * 25 * (cos (time * 0.1) * 25))
      with (25 * cos (time * 0.1) * (25 * cos (time * 0.1))
            + 25 * sin (time * 0.1) * (25 * sin (time * 0.1))) by ring.
    apply on_circle.
  - cbv zeta. unfold cameraFrame. cbn [AppState_eqb cam_position cam_rotation].
    eexists. split; [apply AnimatorProofs.Vector3_lerp_approach |].
    cbn [vx vy vz]. split; [| split; [lra | split; [intros; lra | split]]].
    + set (a := (x (position handData) - 0.5) * 10 * 0.5).
      replace (sin a * 25 * (sin a * 25) + cos a * 25 * (cos a * 25))
        with (25 * cos a * (25 * cos a) + 25 * sin a * (25 * sin a)) by ring.
      apply on_circle.
    + intros ->. replace ((0.5 - 0.5) * 10 * 0.5) with 0 by lra.
      rewrite sin_0, cos_0. split; lra.
    + reflexivity.
Qed.

End Rig.

(** A pointer at the top edge, half a second into the scatter. *)
Lemma cameraFrame_spec_witness :
  exists desired : Vec3,
    cam_position
      (cameraFrame (fun v => v) SCATTER
                   (mkResult OPEN_PALM (mkVec2 0.5 0) true) 0.5 0.016
                   (mkCamera (mkVec3 0 0 25) (mkVec3 0 0 0)))
    = approach3 (mkVec3 0 0 25) desired 2 0.016 /\
    - 5 <= vy desired <= 5.
Proof.
  destruct (proj2 (proj2 (cameraFrame_spec (fun v => v)
              (mkResult OPEN_PALM (mkVec2 0.5 0) true) 0.5 0.016
              (mkCamera (mkVec3 0 0 25) (mkVec3 0 0 0)))))
    as (desired & Hpos & _ & _ & Hy & _).
  exists desired. split; [exact Hpos |].
  apply Hy. simpl. lra.
Defined.

End CameraProofs.

(* ================================================================= *)
(** ** The index of the selection *)

Module SelectionIndexProofs.
Import Experience SelectorProofs.
Local Open Scope R_scope.

Section Selector.

Variable Camera : Type.
Variable project : Camera -> Vec3 -> Vec3.

(** The index the selector hands to its callback always names a photo of
    the list it searched, one whose projected anchor is within 0.4 of the
    pointer.  So the selection index the application stores through the
    callback is in range for that list.  After clear-all the regenerated
    list is empty and the selector stays silent, leaving the index at
    0. *)
Theorem selection_index_in_range (appState : AppState) (camera : Camera)
  (handData : HandTrackingResult) (photoParticles : list ParticleData) :
  (forall i : Z,
     selectionFrame Camera project appState camera handData photoParticles
     = Some i ->
     (0 <= i < Z.of_nat (List.length photoParticles))%Z /\
     exists p : ParticleData,
       nth_error photoParticles (Z.to_nat i) = Some p /\
       spec_distance Camera project appState camera
                     (x (position handData)) (y (position handData)) p < 0.4 /\
       photoParticles <> [] /\ isPresent handData = true) /\
  selectionFrame Camera project appState camera handData [] = None /\
  (forall (rand : Random) (st : App.Model),
     selectionFrame Camera project appState camera handData
       (newPhotoParticles rand (App.photos (App.clearPhotos st)))
     = None /\
     App.activePhotoIndex (App.clearPhotos st) = 0%Z).
Proof.
  split; [| split].
  - intros i H. unfold selectionFrame in H.
    destruct (selectionRuns appState handData photoParticles) eqn:Hruns;
      [| discriminate].
    apply (selectionRuns_true appState handData photoParticles) in Hruns
      as (_ & Hpres & Hne).
    destruct (forEach_first_min Camera project appState camera
                (ndcX handData) (ndcY handData) photoParticles Hne)
      as (k & p & Hn & E & _ & _).
    rewrite E in H.
    destruct (num_ltb _ 0.4) eqn:Hlt; [| discriminate].
    assert (Hk : (Z.of_nat k =? -1)%Z = false) by (apply Z.eqb_neq; lia).
    rewrite Hk in H. cbn in H. injection H as <-.
    assert (Hlen : (k < List.length photoParticles)%nat)
      by (apply nth_error_Some; congruence).
    split; [lia |].
    exists p. rewrite Nat2Z.id. split; [exact Hn |].
    split; [| split; assumption].
    rewrite <- pointerDist_spec. now apply num_ltb_true.
  - unfold selectionFrame, selectionRuns.
    destruct (AppState_eqb appState ZOOM); [reflexivity |].
    rewrite orb_true_r. reflexivity.
  - intros rand st. split; [| reflexivity].
    unfold selectionFrame, selectionRuns. cbn.
    destruct (AppState_eqb appState ZOOM); [reflexivity |].
    rewrite orb_true_r. reflexivity.
Qed.

End Selector.

(** The selector over a single photo in front of the pointer. *)
Lemma selection_index_in_range_witness :
  (0 <= 0 < Z.of_nat 1)%Z.
Proof.
  apply (proj1 (selection_index_in_range unit (fun _ v => v) TREE tt
                  (mkResult NONE (mkVec2 0.5 0.5) true)
                  [mkParticle 1000 (mkVec3 0 0 0) (mkVec3 0 0 0)
                              (mkVec3 5 5 0) PHOTO "white" 1
                              (Some "blob:1"%string) (mkVec3 0 0 0)])
               0%Z).
  exact tree_frame_selects.
Defined.

End SelectionIndexProofs.
